(** * MVGRL node-level training script (node/train.py): a shallow embedding

    The script builds its networks from PyTorch tensor primitives.  Tensors
    are embedded as nested lists in row-major order ([T2] for two axes, [T3]
    for three), scalars as an abstract carrier with the handful of
    operations the script reaches, and every class of the script as a
    module holding a record of its parameters and its [forward].

    Shape errors that PyTorch raises inside a primitive are outside the
    model unless stated otherwise: the list primitives are total, and the
    theorems carry the shapes as hypotheses.  Index errors, [view] failures
    and [topk] range errors are modelled with [option]. *)

From stdpp Require Import base tactics option list sorting.
From Stdlib Require Import ZArith QArith Qreduction.

Open Scope nat_scope.
Open Scope list_scope.

(** ** Scalars *)

(** The element type of a tensor.  [sltb x y] is the test [x < y];
    [sof_Z] reads an integer literal or a size. *)
Class Scalar (R : Type) := {
  szero : R;
  sadd : R → R → R;
  smul : R → R → R;
  sdiv : R → R → R;
  sneg : R → R;
  sexp : R → R;
  sltb : R → R → bool;
  sof_Z : Z → R;
}.

(** The comparison is a strict weak order: what [topk] needs to rank. *)
Class ScalarOrder (R : Type) `{Scalar R} : Prop := {
  sltb_asym : ∀ x y : R, sltb x y = true → sltb y x = false;
  sltb_negtrans : ∀ x y z : R, sltb x y = false → sltb y z = false → sltb x z = false;
}.

(** Exact rationals, kept reduced so that results compare with [=].  The
    exponential is not rational: [Qexp_standin] is a positive stand-in that
    only serves to run the examples. *)
Definition Qexp_standin (x : Q) : Q :=
  if Qle_bool 0 x then Qred (1 + x + x * x / 2)
  else Qred (1 / (1 - x + x * x / 2)).

Definition Qltb (x y : Q) : bool := negb (Qle_bool y x).

#[export] Instance Q_scalar : Scalar Q := {|
  szero := 0%Q;
  sadd x y := Qred (x + y);
  smul x y := Qred (x * y);
  sdiv x y := Qred (x / y);
  sneg x := Qred (- x);
  sexp := Qexp_standin;
  sltb := Qltb;
  sof_Z z := inject_Z z;
|}.

(** ** Tensor primitives *)

Abbreviation T2 R := (list (list R)) (only parsing).
Abbreviation T3 R := (list (list (list R))) (only parsing).

(** A matrix of [r] rows and [c] columns; a tensor of [b] such matrices. *)
Definition shape2 {A} (r c : nat) (m : list (list A)) : Prop :=
  length m = r ∧ Forall (λ row, length row = c) m.

Definition shape3 {A} (b r c : nat) (t : list (list (list A))) : Prop :=
  length t = b ∧ Forall (shape2 r c) t.

Section Tensors.
Context {R : Type} `{Scalar R}.


Definition sone : R := sof_Z 1.

(** Sum of a vector, accumulated left to right. *)
Definition ssum (v : list R) : R := foldl sadd szero v.

Definition dot (u v : list R) : R := ssum (zip_with smul u v).

Definition vadd (u v : list R) : list R := zip_with sadd u v.

(** One axis of [expand]: an axis of size one is repeated [n] times, any
    other axis is kept (PyTorch demands that it has size [n] already). *)
Definition expand_axis {A} (n : nat) (l : list A) : list A :=
  match l with
  | [x] => replicate n x
  | _ => l
  end.

(** One axis of an element-wise binary operation with broadcasting. *)
Definition bcast_zip {A B C} (f : A → B → C) (xs : list A) (ys : list B) : list C :=
  match xs, ys with
  | [x], _ => map (f x) ys
  | _, [y] => map (λ x, f x y) xs
  | _, _ => zip_with f xs ys
  end.

(** [x * y] on two tensors of three axes. *)
Definition mul3 (x y : T3 R) : T3 R := bcast_zip (bcast_zip (bcast_zip smul)) x y.

(** [torch.unsqueeze(t, -1)] on two axes and [torch.unsqueeze(t, 1)]. *)
Definition unsqueeze_last (t : T2 R) : T3 R := map (map (λ x, [x])) t.
Definition unsqueeze1 (t : T2 R) : T3 R := map (λ r, [r]) t.

(** Sum over the rows of a matrix, one entry per column. *)
Definition sum_rows (m : T2 R) : list R :=
  match m with
  | [] => []
  | r :: rs => foldl vadd r rs
  end.

(** [torch.sum(t, dim=0)] on a matrix, and [torch.mean(t, 1)] on three
    axes: the sum over the node axis divided by the node count. *)
Definition sum0 (m : T2 R) : list R := sum_rows m.

Definition mean1 (t : T3 R) : T2 R :=
  map (λ m, map (λ s, sdiv s (sof_Z (Z.of_nat (length m)))) (sum_rows m)) t.

(** [torch.sum(t)]: one scalar for the whole tensor. *)
Definition sum_all (t : T3 R) : R := ssum (concat (concat t)).

Definition div_scalar (t : T2 R) (d : R) : T2 R := map (map (λ x, sdiv x d)) t.

(** [torch.mm(a, b)] where [b] has [p] columns. *)
Definition col (j : nat) (b : T2 R) : list R := map (λ r, default szero (r !! j)) b.

Definition mm (p : nat) (a b : T2 R) : T2 R :=
  map (λ row, map (λ j, dot row (col j b)) (seq 0 p)) a.

(** [torch.bmm]: [mm] per batch element. *)
Definition bmm (p : nat) (a b : T3 R) : T3 R := zip_with (mm p) a b.

(** [torch.cat(ts, 1)] on matrices. *)
Definition cat1 (ts : list (T2 R)) : T2 R :=
  match ts with
  | [] => []
  | t :: ts' => foldl (zip_with app) t ts'
  end.

(** [x.expand_as(h)] for three axes. *)
Definition expand_as (x h : T3 R) : T3 R :=
  let n := length (default [] (head h)) in
  let f := length (default [] (head (default [] (head h)))) in
  expand_axis (length h) (map (λ m, expand_axis n (map (expand_axis f) m)) x).

(** [count] consecutive chunks of [width] entries. *)
Fixpoint chunks {A} (count width : nat) (l : list A) : list (list A) :=
  match count with
  | 0 => []
  | S c => take width l :: chunks c width (drop width l)
  end.

(** [t.view(r, -1)] on the flat data of [t]: the free axis is inferred,
    which fails when [r] is zero or does not divide the size. *)
Definition view2 (r : nat) (flat : list R) : option (T2 R) :=
  if decide (r ≠ 0 ∧ length flat `mod` r = 0)
  then Some (chunks r (length flat `div` r) flat)
  else None.

(** [t.view(d0, -1, d2)]. *)
Definition view3 (d0 d2 : nat) (flat : list R) : option (T3 R) :=
  if decide (d0 * d2 ≠ 0 ∧ length flat `mod` (d0 * d2) = 0)
  then let m := length flat `div` (d0 * d2) in
       Some (chunks d0 m (chunks (d0 * m) d2 flat))
  else None.

(** [F.softmax(t, dim=1)] on a matrix: every row is normalised. *)
Definition softmax_row (v : list R) : list R :=
  let es := map sexp v in
  let s := ssum es in
  map (λ e, sdiv e s) es.

Definition softmax1 (m : T2 R) : T2 R := map softmax_row m.

(** [torch.topk(v, k)]: the indices of the [k] largest entries, largest
    first.  It fails when [k] exceeds the size.  Entries are ranked by
    a stable merge sort; PyTorch leaves the order of ties open. *)
Definition score_ge (p q : nat * R) : Prop := sltb (snd p) (snd q) = false.

#[export] Instance score_ge_dec p q : Decision (score_ge p q).
Proof. unfold score_ge. apply _. Defined.

Definition ranked (v : list R) : list (nat * R) :=
  merge_sort score_ge (zip (seq 0 (length v)) v).

Definition topk (v : list R) (k : nat) : option (list R * list nat) :=
  if decide (k ≤ length v)
  then let top := take k (ranked v) in Some (map snd top, map fst top)
  else None.
End Tensors.

(** ** GCN *)

(** The adjacency argument is a dense batch (three axes) or, on the
    sparse path, one sparse matrix (two axes). *)
Inductive AdjArg (R : Type) : Type :=
  | Dense3 (a : list (list (list R)))
  | Sparse2 (a : list (list R)).
Arguments Dense3 {R} a.
Arguments Sparse2 {R} a.

Module GCN.
(** [fc_weight] is the weight of [nn.Linear(in_ft, out_ft, bias=False)],
    one row per output feature; [act_weight] is the slope of
    [nn.PReLU()]; [bias] is [None] when built with [bias=False]. *)
Record t (R : Type) : Type := Build {
  fc_weight : list (list R);
  act_weight : R;
  bias : option (list R);
}.
Arguments Build {R} _ _ _.
Arguments fc_weight {R} _.
Arguments act_weight {R} _.
Arguments bias {R} _.

Section Forward.
Context {R : Type} `{Scalar R}.

Definition out_ft (g : t R) : nat := length (fc_weight g).

(** [self.fc(seq)]: every feature row times the transposed weight. *)
Definition fc (g : t R) (seq : T3 R) : T3 R :=
  map (map (λ x, map (dot x) (fc_weight g))) seq.

(** [self.act]: PReLU with one shared slope. *)
Definition act (g : t R) (x : R) : R :=
  if sltb szero x then x else smul (act_weight g) x.

Definition forward (g : t R) (seq : T3 R) (adj : AdjArg R) (sparse : bool)
  : option (T3 R) :=
  let seq_fts := fc g seq in
  out ← (if sparse
         then match adj, seq_fts with
              | Sparse2 a, [m] => Some [mm (out_ft g) a m]
              | _, _ => None
              end
         else match adj with
              | Dense3 a => Some (bmm (out_ft g) a seq_fts)
              | Sparse2 _ => None
              end);
  let out := match bias g with
             | Some b => map (map (λ r, vadd r b)) out
             | None => out
             end in
  Some (map (map (map (act g))) out).
End Forward.
End GCN.

(** ** Readout *)

Module Readout.
Section Forward.
Context {R : Type} `{Scalar R}.

Definition forward (seq : T3 R) (msk : option (T2 R)) : T2 R :=
  match msk with
  | None => mean1 seq
  | Some msk =>
      let msk := unsqueeze_last msk in
      div_scalar (mean1 (mul3 seq msk)) (sum_all msk)
  end.

(** The masked readout as the specification words it: the masked
    features summed over the node axis, divided by the sum of the
    whole mask. *)
Definition masked_sum_spec (seq : T3 R) (msk : T2 R) : T2 R :=
  let total := ssum (concat msk) in
  zip_with (λ m w,
    map (λ s, sdiv s total)
        (sum_rows (zip_with (λ row x, map (λ y, smul y x) row) m w)))
    seq msk.
End Forward.
End Readout.

(** ** Discriminator *)

Module Discriminator.
(** The parameters of [nn.Bilinear(n_h, n_h, 1)]: with one output
    feature the weight is one [n_h × n_h] matrix and the bias one
    scalar. *)
Record t (R : Type) : Type := Build {
  f_k_weight : list (list R);
  f_k_bias : R;
}.
Arguments Build {R} _ _.
Arguments f_k_weight {R} _.
Arguments f_k_bias {R} _.

Section Forward.
Context {R : Type} `{Scalar R}.

(** [x1ᵀ·W·x2 + b] for one pair of vectors. *)
Definition bilinear (d : t R) (x1 x2 : list R) : R :=
  sadd (dot x1 (map (λ w, dot w x2) (f_k_weight d))) (f_k_bias d).

(** [torch.squeeze(self.f_k(x1, x2), 2)]: the bilinear form at every
    batch element and node; the unit output axis is dropped. *)
Definition f_k (d : t R) (x1 x2 : T3 R) : T2 R :=
  zip_with (zip_with (bilinear d)) x1 x2.

Definition forward (d : t R) (c1 c2 : T2 R) (h1 h2 h3 h4 : T3 R)
    (s_bias1 s_bias2 : option (T2 R)) : T2 R :=
  let c_x1 := expand_as (unsqueeze1 c1) h1 in
  let c_x2 := expand_as (unsqueeze1 c2) h2 in
  let sc_1 := f_k d h2 c_x1 in
  let sc_2 := f_k d h1 c_x2 in
  let sc_3 := f_k d h4 c_x1 in
  let sc_4 := f_k d h3 c_x2 in
  cat1 [sc_1; sc_2; sc_3; sc_4].
End Forward.
End Discriminator.

(** ** Gradient tracking *)

(** A tensor value with the flag autograd keeps for it. *)
Record Var (A : Type) : Type := MkVar {
  data : A;
  requires_grad : bool;
}.
Arguments MkVar {A} _ _.
Arguments data {A} _.
Arguments requires_grad {A} _.

(** The output of a module that reads [nn.Parameter]s is tracked. *)
Definition of_module {A} (x : A) : Var A := MkVar x true.

Definition lift1 {A B} (f : A → B) (u : Var A) : Var B :=
  MkVar (f (data u)) (requires_grad u).

Definition lift2 {A B C} (f : A → B → C) (u : Var A) (v : Var B) : Var C :=
  MkVar (f (data u) (data v)) (requires_grad u || requires_grad v).

Definition detach {A} (u : Var A) : Var A := MkVar (data u) false.

(** ** Model *)

Module Model.
Record t (R : Type) : Type := Build {
  gcn1 : GCN.t R;
  gcn2 : GCN.t R;
  disc : Discriminator.t R;
}.
Arguments Build {R} _ _ _.
Arguments gcn1 {R} _.
Arguments gcn2 {R} _.
Arguments disc {R} _.

Section Forward.
Context {R : Type} `{Scalar R}.

(** [nn.Sigmoid()], element-wise. *)
Definition sigmoid (x : R) : R := sdiv sone (sadd sone (sexp (sneg x))).
Definition sigm (t : T2 R) : T2 R := map (map sigmoid) t.

(** [h_1 + h_2]. *)
Definition add3 (x y : T3 R) : T3 R := bcast_zip (bcast_zip (bcast_zip sadd)) x y.

Definition forward (m : t R) (seq1 seq2 : T3 R) (adj diff : AdjArg R)
    (sparse : bool) (msk : option (T2 R)) (samp_bias1 samp_bias2 : option (T2 R))
  : option (T2 R * T3 R * T3 R) :=
  h_1 ← GCN.forward (gcn1 m) seq1 adj sparse;
  let c_1 := Readout.forward h_1 msk in
  let c_1 := sigm c_1 in
  h_2 ← GCN.forward (gcn2 m) seq1 diff sparse;
  let c_2 := Readout.forward h_2 msk in
  let c_2 := sigm c_2 in
  h_3 ← GCN.forward (gcn1 m) seq2 adj sparse;
  h_4 ← GCN.forward (gcn2 m) seq2 diff sparse;
  let ret := Discriminator.forward (disc m) c_1 c_2 h_1 h_2 h_3 h_4
               samp_bias1 samp_bias2 in
  Some (ret, h_1, h_2).

Definition embed (m : t R) (seq : T3 R) (adj diff : AdjArg R)
    (sparse : bool) (msk : option (T2 R)) : option (Var (T3 R) * Var (T2 R)) :=
  h_1 ← of_module <$> GCN.forward (gcn1 m) seq adj sparse;
  let c := lift1 (λ h, Readout.forward h msk) h_1 in
  h_2 ← of_module <$> GCN.forward (gcn2 m) seq diff sparse;
  Some (detach (lift2 add3 h_1 h_2), detach c).
End Forward.
End Model.

(** ** GraphAttentionLayer *)

Module GraphAttentionLayer.
(** [W] is [in_features × out_features], [a] is
    [2·out_features × 1].  [concat_flag] is the field [concat];
    [training] is the mode flag of [nn.Module]. *)
Record t (R : Type) : Type := Build {
  dropout : R;
  in_features : nat;
  out_features : nat;
  alpha : R;
  concat_flag : bool;
  W : list (list R);
  a : list (list R);
  training : bool;
}.
Arguments Build {R} _ _ _ _ _ _ _ _.
Arguments dropout {R} _.
Arguments in_features {R} _.
Arguments out_features {R} _.
Arguments alpha {R} _.
Arguments concat_flag {R} _.
Arguments W {R} _.
Arguments a {R} _.
Arguments training {R} _.

Section Forward.
Context {R : Type} `{Scalar R}.

(** [nn.LeakyReLU(self.alpha)]. *)
Definition leakyrelu (l : t R) (x : R) : R :=
  if sltb szero x then x else smul x (alpha l).

(** [-9e15 * torch.ones_like(e)], one entry. *)
Definition zero_vec_entry : R := smul (sof_Z (-9000000000000000)) sone.

(** [torch.matmul(a_input, self.a).squeeze(2)]: [self.a] has one
    column, so every vector of the last axis yields one scalar. *)
Definition matmul_squeeze (a_input : T3 R) (a : T2 R) : T2 R :=
  map (map (λ v, dot v (col 0 a))) a_input.

(** [torch.where(adj > 0, e, zero_vec)]. *)
Definition where_positive (adj e : T2 R) : T2 R :=
  zip_with (zip_with (λ x y, if sltb szero x then y else zero_vec_entry)) adj e.

(** The per-node significance scores, before the selection. *)
Definition sig_scores (l : t R) (input adj : T2 R) : option (list R) :=
  let h := mm (out_features l) input (W l) in
  let N := length h in
  left ← view2 (N * N) (concat (map (λ r, concat (replicate N r)) h));
  let right := concat (replicate N h) in
  a_input ← view3 N (2 * out_features l) (concat (zip_with app left right));
  let e := map (map (leakyrelu l)) (matmul_squeeze a_input (a l)) in
  let attention := where_positive adj e in
  let attention := softmax1 attention in
  Some (sum0 attention).

Definition forward (l : t R) (input adj : T2 R) (sig_sample_size : nat)
  : option (list nat) :=
  scores ← sig_scores l input adj;
  snd <$> topk scores sig_sample_size.

(** The attention logits written entry by entry: pair [(i, j)] scores
    the concatenation of the projected rows [i] and [j]. *)
Definition pair_logits (l : t R) (h : T2 R) : T2 R :=
  map (λ hi, map (λ hj, leakyrelu l (dot (hi ++ hj) (col 0 (a l)))) h) h.
End Forward.
End GraphAttentionLayer.


(** ** train *)

Module Train.
(** The constants fixed at the head of [train]. *)
Definition nb_epochs : nat := 3000.
Definition patience : nat := 20.
Definition sample_size : nat := 2500.
Definition batch_size : nat := 4.
Definition sig_sample_size : nat := 2000.

Section Indexing.
Context {A : Type}.

(** [bf[:, idx, :]]: the rows [idx] of every batch element.  An index
    past the node axis raises. *)
Definition index_nodes (bf : list (list (list A))) (idx : list nat)
  : option (list (list (list A))) :=
  mapM (λ m : list (list A), mapM (λ i, m !! i) idx) bf.

(** [t[bi, ids, ids]]: the two index vectors are paired up, so entry [k]
    is [t[bi, ids[k], ids[k]]]. *)
Definition index_pairs (t : list (list (list A))) (bi : nat) (ids : list nat)
  : option (list A) :=
  m ← t !! bi;
  mapM (λ i, (m !! i) ≫= (λ row : list A, row !! i)) ids.

(** [t[bi, ids, :]]. *)
Definition index_rows (t : list (list (list A))) (bi : nat) (ids : list nat)
  : option (list (list A)) :=
  m ← t !! bi;
  mapM (λ i, m !! i) ids.

(** The value of a slice assignment, broadcast to [r × c]: axes of size
    one are repeated, any other size must agree. *)
Definition broadcast_to (r c : nat) (v : list (list A)) : option (list (list A)) :=
  let v' := expand_axis r (map (expand_axis c) v) in
  if decide (length v' = r ∧ Forall (λ row, length row = c) v')
  then Some v'
  else None.

(** [t[bi, :, :] = v] for a matrix [v]. *)
Definition set_block (t : list (list (list A))) (bi : nat) (v : list (list A))
  : option (list (list (list A))) :=
  slot ← t !! bi;
  v' ← broadcast_to (length slot) (length (default [] (head slot))) v;
  Some (<[bi := v']> t).

(** [t[bi, :, :] = v] for a vector [v], which counts as one row. *)
Definition set_block_vec (t : list (list (list A))) (bi : nat) (v : list A)
  : option (list (list (list A))) :=
  set_block t bi [v].
End Indexing.

Section Sampling.
Context {R : Type} `{Scalar R}.

Definition zeros3 (d0 d1 d2 : nat) : T3 R :=
  replicate d0 (replicate d1 (replicate d2 szero)).

(** The three tensors filled by the loop over the batch. *)
Record sampled : Type := Sampled {
  sampled_ba : T3 R;
  sampled_bd : T3 R;
  sampled_bf : T3 R;
}.

Definition sampled_init (bs k ft_size : nat) : sampled :=
  Sampled (zeros3 bs k k) (zeros3 bs k k) (zeros3 bs k ft_size).

(** The three assignments of one pass of the loop over [bi], for the
    indices [ids] the attention layer returned. *)
Definition gather_step (ba bd bf : T3 R) (bi : nat) (ids : list nat)
    (s : sampled) : option sampled :=
  va ← index_pairs ba bi ids;
  sa ← set_block_vec (sampled_ba s) bi va;
  vd ← index_pairs bd bi ids;
  sd ← set_block_vec (sampled_bd s) bi vd;
  vf ← index_rows bf bi ids;
  sf ← set_block (sampled_bf s) bi vf;
  Some (Sampled sa sd sf).



(** The negative features of one epoch: [idx] is the array drawn by
    [np.random.permutation(sig_sample_size)]. *)
Definition shuf_fts (bf : T3 R) (idx : list nat) : option (T3 R) :=
  index_nodes bf idx.
End Sampling.

Section EarlyStopping.
Context {R : Type} `{Scalar R}.

(** The three variables the patience check reads and writes. *)
Record stop_state : Type := StopState {
  cnt_wait : nat;
  best : R;
  best_t : nat;
}.

Definition stop_init : stop_state := StopState 0 (sof_Z 1000000000) 0.

(** [if loss < best: ... else: cnt_wait += 1]. *)
Definition improve_check (epoch : nat) (loss : R) (s : stop_state) : stop_state :=
  if sltb loss (best s)
  then StopState 0 loss epoch
  else StopState (cnt_wait s + 1) (best s) (best_t s).

(** How the loop over the epochs ends: by [break] in some epoch, or by
    running out of epochs. *)
Inductive loop_end : Type :=
  | Break (epoch : nat) (s : stop_state)
  | Exhausted (s : stop_state).

(** The loop over [epochs]; [loss e] is the loss computed in epoch [e]. *)
Fixpoint epochs_loop (patience : nat) (loss : nat → R) (epochs : list nat)
    (s : stop_state) : loop_end :=
  match epochs with
  | [] => Exhausted s
  | epoch :: rest =>
      let s' := improve_check epoch (loss epoch) s in
      if decide (cnt_wait s' = patience)
      then Break epoch s'
      else epochs_loop patience loss rest s'
  end.

(** [for epoch in range(nb_epochs)] from the initial variables. *)
Definition run_epochs (patience nb_epochs : nat) (loss : nat → R) : loop_end :=
  epochs_loop patience loss (seq 0 nb_epochs) stop_init.

Definition train_loop (loss : nat → R) : loop_end :=
  run_epochs patience nb_epochs loss.
End EarlyStopping.
End Train.


(** ** Parameter shapes *)

(** The shapes the constructors give the parameters: [GCN(in_ft, out_ft)]
    holds a weight of [out_ft] rows of [in_ft] entries and, if any, a bias
    of [out_ft] entries; [Model(n_in, n_h)] holds two such encoders and
    the [n_h × n_h] weight of [nn.Bilinear(n_h, n_h, 1)]. *)
Definition gcn_shape {R} (in_ft out_ft : nat) (g : GCN.t R) : Prop :=
  shape2 out_ft in_ft (GCN.fc_weight g)
  ∧ ∀ b, GCN.bias g = Some b → length b = out_ft.


(** ** train: one epoch and the evaluation *)

#[export] Instance shape2_dec {A} (r c : nat) (m : list (list A)) :
  Decision (shape2 r c m).
Proof. unfold shape2. apply _. Defined.

Module Epoch.
Section Windows.
Context {A : Type}.

(** [l[i : i + s]]: a slice past the end is cut short, not an error. *)
Definition slice {X} (i s : nat) (l : list X) : list X := take s (drop i l).

(** [m[i : i + s, i : i + s]] and [m[i : i + s]]. *)
Definition window2 (m : list (list A)) (i s : nat) : list (list A) :=
  map (slice i s) (slice i s m).

Definition window_rows (m : list (list A)) (i s : nat) : list (list A) :=
  slice i s m.

(** [np.array(ws).reshape(b, r, c)] on a list of matrices: the matrices
    must agree in shape to stack, and the entries must number [b·r·c]. *)
Definition np_array_reshape (ws : list (list (list A))) (b r c : nat)
  : option (list (list (list A))) :=
  let w0 := default [] (head ws) in
  let r0 := length w0 in
  let c0 := length (default [] (head w0)) in
  if decide (Forall (shape2 r0 c0) ws ∧ length (concat (concat ws)) = b * r * c)
  then Some (chunks b r (chunks (b * r) c (concat (concat ws))))
  else None.

(** The four tensors cut for one epoch. *)
Record batch : Type := Batch {
  bo : list (list (list A));
  ba : list (list (list A));
  bd : list (list (list A));
  bf : list (list (list A));
}.

(** The loop [for i in idx] and the four reshapes; [idx] holds the
    offsets drawn by [np.random.randint]. *)
Definition windows (ori_adj adj diff features : list (list A))
    (idx : list nat) (bs ss ft_size : nat) : option batch :=
  o ← np_array_reshape (map (λ i, window2 ori_adj i ss) idx) bs ss ss;
  a ← np_array_reshape (map (λ i, window2 adj i ss) idx) bs ss ss;
  d ← np_array_reshape (map (λ i, window2 diff i ss) idx) bs ss ss;
  f ← np_array_reshape (map (λ i, window_rows features i ss) idx) bs ss ft_size;
  Some (Batch o a d f).
End Windows.

Section Forward.
Context {R : Type} `{Scalar R}.



End Forward.

Section Checkpoint.
Context {R : Type} `{Scalar R} {P : Type}.

(** The parameters of the model, the variables of the patience check,
    and the content of the file [model.pkl], if there is one. *)
Record run_state : Type := RunState {
  params : P;
  stop : Train.stop_state (R := R);
  saved : option P;
}.

(** One epoch from the forward pass on: [loss_of epoch θ] is the loss of
    the epoch's batch under the parameters [θ], [update epoch θ] the
    parameters after [loss.backward()] and [optimiser.step()].  The
    parameters are saved after the update. *)
Definition epoch_step (loss_of : nat → P → R) (update : nat → P → P)
    (epoch : nat) (st : run_state) : run_state :=
  let loss := loss_of epoch (params st) in
  let θ := update epoch (params st) in
  RunState θ (Train.improve_check epoch loss (stop st))
    (if sltb loss (Train.best (stop st)) then Some θ else saved st).

(** The loop over the epochs; the second component is the epoch of the
    [break], if any. *)
Fixpoint run_loop (loss_of : nat → P → R) (update : nat → P → P)
    (patience : nat) (epochs : list nat) (st : run_state)
  : run_state * option nat :=
  match epochs with
  | [] => (st, None)
  | epoch :: rest =>
      let st' := epoch_step loss_of update epoch st in
      if decide (Train.cnt_wait (stop st') = patience)
      then (st', Some epoch)
      else run_loop loss_of update patience rest st'
  end.

(** The parameters at the start of epoch [e]. *)
Fixpoint params_at (update : nat → P → P) (θ0 : P) (e : nat) : P :=
  match e with
  | 0 => θ0
  | S e' => update e' (params_at update θ0 e')
  end.

(** [model.load_state_dict(torch.load('model.pkl'))]: fails without a
    file. *)
Definition restore (st : run_state) : option P := saved st.
End Checkpoint.

Section Probe.
Context {R : Type} `{Scalar R}.

(** [torch.sum(preds == test_lbls)]. *)
Definition correct (preds test_lbls : list nat) : nat :=
  length (filter (λ p, p.1 = p.2) (zip preds test_lbls)).

(** [acc * 100] with
    [acc = torch.sum(preds == test_lbls).float() / test_lbls.shape[0]]. *)
Definition accuracy (preds test_lbls : list nat) : R :=
  smul (sdiv (sof_Z (Z.of_nat (correct preds test_lbls)))
             (sof_Z (Z.of_nat (length test_lbls))))
       (sof_Z 100).
End Probe.
End Epoch.

(** ** Small rational inputs for the worked instances *)

Module Examples.
Open Scope Q_scope.

(** A discriminator with the identity as bilinear weight, two summaries
    and four embeddings of one graph with three nodes and two features. *)
Definition disc : Discriminator.t Q := Discriminator.Build [[1; 0]; [0; 1]] 0.
Definition c1 : T2 Q := [[1; 1]].
Definition c2 : T2 Q := [[2; 2]].
Definition h1 : T3 Q := [[[1; 0]; [0; 1]; [1; 1]]].
Definition h2 : T3 Q := [[[2; 0]; [0; 2]; [2; 2]]].
Definition h3 : T3 Q := [[[3; 0]; [0; 3]; [3; 3]]].
Definition h4 : T3 Q := [[[4; 0]; [0; 4]; [4; 4]]].

(** One window of three nodes with two features. *)
Definition ba : T3 Q := [[[1; 2; 3]; [4; 5; 6]; [7; 8; 9]]].
Definition bd : T3 Q := [[[11; 12; 13]; [14; 15; 16]; [17; 18; 19]]].
Definition bf : T3 Q := [[[10; 11]; [20; 21]; [30; 31]]].

(** An attention layer with one input and one output feature. *)
Definition attn : GraphAttentionLayer.t Q :=
  GraphAttentionLayer.Build (6 # 10) 1 1 (2 # 10) true [[1]] [[1]; [1]] true.
Definition feats : T2 Q := [[1]; [2]; [3]].
Definition ring : T2 Q := [[1; 1; 0]; [0; 1; 1]; [1; 0; 1]].

(** Losses that fall by one per epoch down to 3 in epoch 7 and stay
    there. *)
Definition falling_loss (e : nat) : Q :=
  if (e <? 7)%nat then inject_Z (10 - Z.of_nat e) else 3.
End Examples.


(** ** More small inputs *)

Module MoreExamples.
Open Scope Q_scope.

(** Two encoders from one input feature to two hidden features. *)
Definition gcn_a : GCN.t Q := GCN.Build [[1]; [2]] (1 # 4) (Some [0; 0]).
Definition gcn_b : GCN.t Q := GCN.Build [[1]; [-1]] (1 # 4) None.
Definition model : Model.t Q := Model.Build gcn_a gcn_b Examples.disc.

(** One window of three nodes with one feature. *)
Definition batch : Epoch.batch (A := Q) :=
  Epoch.Batch [Examples.ring] Examples.ba Examples.bd [Examples.feats].

(** The ring with other edge weights. *)
Definition ring_weighted : T2 Q := [[5; 2; 0]; [-1; 7; 3]; [9; 0; 1 # 2]].

(** A graph of four nodes with two features per node. *)
Definition graph_adj : list (list nat) :=
  [[0; 1; 2; 3]; [10; 11; 12; 13]; [20; 21; 22; 23]; [30; 31; 32; 33]]%nat.
Definition graph_fts : list (list nat) :=
  [[0; 1]; [2; 3]; [4; 5]; [6; 7]]%nat.

(** Parameters that count the updates, and a loss that depends on them. *)
Definition count_update (e : nat) (θ : nat) : nat := S θ.
Definition count_loss (e : nat) (θ : nat) : Q := Examples.falling_loss θ.

(** A loss that stays above the initial bound. *)
Definition high_loss (e : nat) : Q := 2000000000.
End MoreExamples.

(** * Properties *)

(** ** The rational instance *)

Lemma Qltb_false (x y : Q) : Qltb x y = false ↔ (y <= x)%Q.
Proof.
  unfold Qltb. rewrite negb_false_iff. apply Qle_bool_iff.
Qed.

Lemma Qltb_true (x y : Q) : Qltb x y = true ↔ (x < y)%Q.
Proof.
  unfold Qltb. rewrite negb_true_iff, <- not_true_iff_false, Qle_bool_iff.
  split; [apply Qnot_le_lt | apply Qlt_not_le].
Qed.

#[export] Instance Q_scalar_order : ScalarOrder Q.
Proof.
  split; simpl.
  - intros x y Hxy. apply Qltb_false, Qlt_le_weak. by apply Qltb_true.
  - intros x y z Hxy Hyz. apply Qltb_false.
    apply Qltb_false in Hxy, Hyz. by apply Qle_trans with y.
Defined.

(** ** Lists *)

Lemma lookup_map {A B} (f : A → B) (l : list A) (i : nat) :
  map f l !! i = f <$> l !! i.
Proof. apply list_lookup_fmap. Qed.

(** Reading a list at a permuted index vector permutes what is read. *)
Lemma Forall2_lookup_Permutation {A} (m : list A) (idx idx' : list nat) (rows : list A) :
  idx ≡ₚ idx' →
  Forall2 (λ i row, m !! i = Some row) idx rows →
  ∃ rows', Forall2 (λ i row, m !! i = Some row) idx' rows' ∧ rows ≡ₚ rows'.
Proof.
  intros Hperm. revert rows.
  induction Hperm as [|i idx idx' _ IH|i j idx|idx1 idx2 idx3 _ IH1 _ IH2];
    intros rows Hrows.
  - apply Forall2_nil_inv_l in Hrows as ->. by exists [].
  - apply Forall2_cons_inv_l in Hrows as (x & rows0 & Hx & Hrows0 & ->).
    destruct (IH _ Hrows0) as (rows' & Hrows' & Hp).
    exists (x :: rows'). split; [by constructor|by constructor].
  - apply Forall2_cons_inv_l in Hrows as (x & rows0 & Hx & Hrows0 & ->).
    apply Forall2_cons_inv_l in Hrows0 as (y & rows1 & Hy & Hrows1 & ->).
    exists (y :: x :: rows1). split; [by repeat constructor|by constructor].
  - destruct (IH1 _ Hrows) as (rows2 & Hrows2 & Hp2).
    destruct (IH2 _ Hrows2) as (rows3 & Hrows3 & Hp3).
    exists rows3. split; [done|by etrans].
Qed.

(** Reading at [0, 1, ..., k-1] reads the first [k] entries. *)
Lemma Forall2_lookup_seq {A} (m : list A) (k : nat) (rows : list A) :
  Forall2 (λ i row, m !! i = Some row) (seq 0 k) rows → rows = take k m.
Proof.
  intros Hrows. apply list_eq. intros i.
  pose proof (Forall2_length _ _ _ Hrows) as Hlen. rewrite length_seq in Hlen.
  destruct (decide (i < k)) as [Hi|Hi].
  - destruct (lookup_lt_is_Some_2 rows i) as [x Hx]; [lia|].
    rewrite Hx, lookup_take_lt by done.
    pose proof (Forall2_lookup_lr _ _ _ i i x Hrows) as Hm.
    rewrite Hm; [done| |done]. by apply lookup_seq_lt.
  - rewrite lookup_take_ge by lia. apply lookup_ge_None. lia.
Qed.

(** An index vector within range can be read. *)
Lemma mapM_lookup_in_range {A} (m : list A) (idx : list nat) :
  Forall (λ i, i < length m) idx →
  ∃ rows, mapM (λ i, m !! i) idx = Some rows
          ∧ Forall2 (λ i row, m !! i = Some row) idx rows.
Proof.
  intros Hidx.
  destruct (mapM_is_Some_2 (λ i, m !! i) idx) as [rows Hrows].
  { eapply Forall_impl; [exact Hidx|]. intros i Hi. by apply lookup_lt_is_Some_2. }
  exists rows. split; [done|]. by apply mapM_Some_1.
Qed.

Lemma elem_of_take_full {A} (x : A) (n : nat) (l : list A) :
  x ∈ take n l → x ∈ l.
Proof.
  intros Hx. rewrite <- (take_drop n l). apply elem_of_app. by left.
Qed.

Lemma elem_of_drop_full {A} (x : A) (n : nat) (l : list A) :
  x ∈ drop n l → x ∈ l.
Proof.
  intros Hx. rewrite <- (take_drop n l). apply elem_of_app. by right.
Qed.

(** ** Broadcasting *)

Section BroadcastFacts.
Context {A B C : Type} (f : A → B → C).

(** On two axes of one size broadcasting is the plain zip. *)
Lemma bcast_zip_same_length (xs : list A) (ys : list B) :
  length xs = length ys → bcast_zip f xs ys = zip_with f xs ys.
Proof.
  destruct xs as [|x [|x' xs]], ys as [|y [|y' ys]]; simpl; done.
Qed.

(** Against an axis of size one the single entry meets every entry. *)
Lemma bcast_zip_singleton_r (xs : list A) (y : B) :
  bcast_zip f xs [y] = map (λ x, f x y) xs.
Proof.
  destruct xs as [|x [|x' xs]]; done.
Qed.
End BroadcastFacts.

Lemma expand_axis_singleton {A} (n : nat) (x : A) :
  expand_axis n [x] = replicate n x.
Proof. done. Qed.

Lemma expand_axis_full {A} (n : nat) (l : list A) :
  length l = n → expand_axis n l = l.
Proof.
  intros <-. by destruct l as [|x [|y l]].
Qed.

(** ** Readout *)

Section ReadoutFacts.
Context {R : Type} `{Scalar R}.

Lemma concat_unsqueeze_last (msk : T2 R) :
  concat (concat (unsqueeze_last msk)) = concat msk.
Proof.
  unfold unsqueeze_last.
  induction msk as [|r msk IH]; simpl; [done|].
  rewrite concat_app, IH. f_equal.
  clear IH. induction r as [|x r IH]; simpl; [done|]. by rewrite IH.
Qed.

(** The product of the features with the unsqueezed mask scales every
    feature row by the mask entry of its node. *)
Lemma mul3_unsqueeze_last (seq : T3 R) (msk : T2 R) :
  Forall2 (λ m w, length m = length w) seq msk →
  mul3 seq (unsqueeze_last msk) =
  zip_with (zip_with (λ row x, map (λ y, smul y x) row)) seq msk.
Proof.
  intros Hshape. unfold mul3, unsqueeze_last.
  rewrite bcast_zip_same_length
    by (rewrite length_map; eapply Forall2_length, Hshape).
  induction Hshape as [|m w seq msk Hlen _ IH]; simpl; [done|].
  rewrite IH. f_equal.
  rewrite bcast_zip_same_length by by rewrite length_map.
  clear IH. revert w Hlen.
  induction m as [|row m IHm]; intros [|x w] Hlen; simplify_eq/=; [done|].
  rewrite IHm by done. f_equal. apply bcast_zip_singleton_r.
Qed.

(** X5.  What the masked branch computes: the masked features are
    averaged over the node axis, and that mean is then divided by the sum
    of the whole mask. *)
Lemma Readout_forward_masked_value (seq : T3 R) (msk : T2 R) :
  Forall2 (λ m w, length m = length w) seq msk →
  Readout.forward seq (Some msk) =
  zip_with (λ m w,
    map (λ s, sdiv (sdiv s (sof_Z (Z.of_nat (length m)))) (ssum (concat msk)))
        (sum_rows (zip_with (λ row x, map (λ y, smul y x) row) m w)))
    seq msk.
Proof.
  intros Hshape. unfold Readout.forward, sum_all.
  rewrite concat_unsqueeze_last, mul3_unsqueeze_last by done.
  generalize (ssum (concat msk)). intros total.
  unfold div_scalar, mean1.
  induction Hshape as [|m w seq msk Hlen _ IH]; simpl; [done|].
  rewrite IH. f_equal.
  rewrite length_zip_with_l_eq by done.
  rewrite map_map. done.
Qed.

(** The unmasked branch is the plain mean over the node axis. *)
Lemma Readout_forward_unmasked (seq : T3 R) :
  Readout.forward seq None = mean1 seq.
Proof. done. Qed.
End ReadoutFacts.

(** C1.  The claim has the masked readout sum the masked features over
    the node axis and divide by the sum of the whole mask.  The code takes
    the mean over the node axis before that division, so on a one-graph
    batch of two nodes with features 2 and 4 and an all-ones mask it
    returns 3/2, where the claimed value, and the unmasked branch on the
    same features, is 3. *)
Lemma Readout_masked_divides_by_node_count :
  Readout.forward [[[2%Q]; [4%Q]]] (Some [[1%Q; 1%Q]]) = [[(3 # 2)%Q]]
  ∧ Readout.masked_sum_spec [[[2%Q]; [4%Q]]] [[1%Q; 1%Q]] = [[3%Q]]
  ∧ Readout.forward [[[2%Q]; [4%Q]]] None = [[3%Q]]
  ∧ Readout.forward [[[2%Q]; [4%Q]]] (Some [[1%Q; 1%Q]])
      ≠ Readout.masked_sum_spec [[[2%Q]; [4%Q]]] [[1%Q; 1%Q]].
Proof.
  repeat split; try (vm_compute; reflexivity).
  vm_compute. discriminate.
Qed.

(** ** Discriminator *)

Section DiscriminatorFacts.
Context {R : Type} `{Scalar R}.




End DiscriminatorFacts.

(** ** GCN and Model *)

Section ModelFacts.
Context {R : Type} `{Scalar R}.

(** C9.  Two calls that differ only in the two score-bias arguments
    return the same result. *)
Theorem Model_forward_ignores_score_bias (m : Model.t R) (seq1 seq2 : T3 R)
    (adj diff : AdjArg R) (sparse : bool) (msk : option (T2 R))
    (samp_bias1 samp_bias2 samp_bias1' samp_bias2' : option (T2 R)) :
  Model.forward m seq1 seq2 adj diff sparse msk samp_bias1 samp_bias2
  = Model.forward m seq1 seq2 adj diff sparse msk samp_bias1' samp_bias2'.
Proof.
  unfold Model.forward.
  destruct (GCN.forward (Model.gcn1 m) seq1 adj sparse) as [x1|]; [|done].
  destruct (GCN.forward (Model.gcn2 m) seq1 diff sparse) as [x2|]; [|done].
  destruct (GCN.forward (Model.gcn1 m) seq2 adj sparse) as [x3|]; [|done].
  destruct (GCN.forward (Model.gcn2 m) seq2 diff sparse) as [x4|]; done.
Qed.

(** The discriminator on its own ignores them as well. *)
Lemma Discriminator_forward_ignores_score_bias (d : Discriminator.t R)
    (c1 c2 : T2 R) (h1 h2 h3 h4 : T3 R) (b1 b2 b1' b2' : option (T2 R)) :
  Discriminator.forward d c1 c2 h1 h2 h3 h4 b1 b2
  = Discriminator.forward d c1 c2 h1 h2 h3 h4 b1' b2'.
Proof. done. Qed.


End ModelFacts.

(** ** GraphAttentionLayer: what the result does not depend on *)

Section AttentionIndependence.
Context {R : Type} `{Scalar R}.

(** [forward] is a function of [W], [a], [alpha], [out_features] and its
    arguments. *)
Lemma GraphAttentionLayer_forward_reads
    (l1 l2 : GraphAttentionLayer.t R) (input adj : T2 R) (k : nat) :
  GraphAttentionLayer.W l1 = GraphAttentionLayer.W l2 →
  GraphAttentionLayer.a l1 = GraphAttentionLayer.a l2 →
  GraphAttentionLayer.alpha l1 = GraphAttentionLayer.alpha l2 →
  GraphAttentionLayer.out_features l1 = GraphAttentionLayer.out_features l2 →
  GraphAttentionLayer.forward l1 input adj k
  = GraphAttentionLayer.forward l2 input adj k.
Proof.
  intros HW Ha Halpha Hout.
  unfold GraphAttentionLayer.forward, GraphAttentionLayer.sig_scores,
    GraphAttentionLayer.leakyrelu.
  by rewrite HW, Ha, Halpha, Hout.
Qed.

(** C10.  Two layers with the same parameters [W] and [a] (and the same
    sizes, slope and [concat]) return the same indices on the same input,
    whatever their dropout rates and whether they are in training or
    evaluation mode. *)
Theorem GraphAttentionLayer_forward_ignores_dropout
    (dropout dropout' : R) (training training' : bool)
    (in_features out_features : nat) (alpha : R) (concat : bool)
    (W a : T2 R) (input adj : T2 R) (k : nat) :
  GraphAttentionLayer.forward
    (GraphAttentionLayer.Build dropout in_features out_features alpha concat
       W a training) input adj k
  = GraphAttentionLayer.forward
      (GraphAttentionLayer.Build dropout' in_features out_features alpha concat
         W a training') input adj k.
Proof. by apply GraphAttentionLayer_forward_reads. Qed.
End AttentionIndependence.

(** ** Index gathers of the training loop *)

Section IndexingFacts.
Context {A : Type}.

Lemma index_nodes_lookup (bf : list (list (list A))) (idx : list nat)
    (shuf : list (list (list A))) (b : nat) (m : list (list A)) :
  Train.index_nodes bf idx = Some shuf → bf !! b = Some m →
  ∃ rows, shuf !! b = Some rows
          ∧ Forall2 (λ i row, m !! i = Some row) idx rows.
Proof.
  intros Hs Hm. apply mapM_Some_1 in Hs.
  destruct (Forall2_lookup_l _ _ _ _ _ Hs Hm) as (rows & Hrows & Hmap).
  exists rows. split; [done|]. by apply mapM_Some_1.
Qed.

Lemma broadcast_to_vec (r c : nat) (v : list A) :
  length v = c → Train.broadcast_to r c [v] = Some (replicate r v).
Proof.
  intros Hv. unfold Train.broadcast_to. simpl.
  rewrite expand_axis_full by done.
  rewrite decide_True; [done|]. split.
  - apply length_replicate.
  - by apply Forall_replicate.
Qed.

Lemma broadcast_to_full (r c : nat) (v : list (list A)) :
  shape2 r c v → Train.broadcast_to r c v = Some v.
Proof.
  intros [Hr Hc]. unfold Train.broadcast_to.
  assert (map (expand_axis c) v = v) as ->.
  { rewrite <- (map_id v) at 2. apply map_ext_in. intros row Hrow.
    apply expand_axis_full. rewrite Forall_forall in Hc.
    apply Hc. by apply list_elem_of_In. }
  rewrite expand_axis_full by done.
  by rewrite decide_True.
Qed.

(** The column count read off a slot fits every value of the slot's
    shape. *)
Lemma shape2_head_cols (r c : nat) (slot v : list (list A)) :
  shape2 r c slot → shape2 r c v →
  shape2 (length slot) (length (default [] (head slot))) v.
Proof.
  intros [Hs Hsc] [Hv Hvc]. split; [congruence|].
  destruct slot as [|row slot]; simpl in *.
  - subst r. destruct v; [constructor|done].
  - apply Forall_cons in Hsc as [-> _]. done.
Qed.

Lemma set_block_vec_Some (t : list (list (list A))) (bi : nat) (v : list A)
    (B K : nat) :
  shape3 B K K t → bi < B → length v = K →
  Train.set_block_vec t bi v = Some (<[bi := replicate K v]> t).
Proof.
  intros [Ht Hslots] Hbi Hv. unfold Train.set_block_vec, Train.set_block.
  destruct (lookup_lt_is_Some_2 t bi) as [slot Hslot]; [lia|].
  rewrite Hslot. simpl.
  destruct (Forall_lookup_1 _ _ _ _ Hslots Hslot) as [Hr Hc].
  rewrite broadcast_to_vec.
  - simpl. by rewrite Hr.
  - destruct slot as [|row slot]; simpl in *; [congruence|].
    apply Forall_cons in Hc as [-> _]. done.
Qed.

Lemma set_block_Some (t : list (list (list A))) (bi : nat) (v : list (list A))
    (B K F : nat) :
  shape3 B K F t → bi < B → shape2 K F v →
  Train.set_block t bi v = Some (<[bi := v]> t).
Proof.
  intros [Ht Hslots] Hbi Hv. unfold Train.set_block.
  destruct (lookup_lt_is_Some_2 t bi) as [slot Hslot]; [lia|].
  rewrite Hslot. simpl.
  pose proof (Forall_lookup_1 _ _ _ _ Hslots Hslot) as Hshape.
  rewrite broadcast_to_full; [done|].
  by eapply shape2_head_cols.
Qed.

(** The paired gather reads the diagonal at the selected indices. *)
Lemma index_pairs_diag (t : list (list (list A))) (bi : nat) (ids : list nat)
    (B N : nat) :
  shape3 B N N t → bi < B → Forall (λ i, i < N) ids →
  ∃ m diag,
    t !! bi = Some m
    ∧ Train.index_pairs t bi ids = Some diag
    ∧ Forall2 (λ i x, (m !! i) ≫= (λ row : list A, row !! i) = Some x) ids diag.
Proof.
  intros [Ht Hms] Hbi Hids. unfold Train.index_pairs.
  destruct (lookup_lt_is_Some_2 t bi) as [m Hm]; [lia|].
  destruct (Forall_lookup_1 _ _ _ _ Hms Hm) as [Hr Hc].
  destruct (mapM_is_Some_2
    (λ i, (m !! i) ≫= (λ row : list A, row !! i)) ids) as [diag Hdiag].
  { eapply Forall_impl; [exact Hids|]. intros i Hi. simpl in *.
    destruct (lookup_lt_is_Some_2 m i) as [row Hrow]; [lia|].
    rewrite Hrow. simpl. apply lookup_lt_is_Some_2.
    by rewrite (Forall_lookup_1 _ _ _ _ Hc Hrow). }
  exists m, diag. rewrite Hm. simpl. split; [done|]. split; [done|].
  by apply mapM_Some_1.
Qed.

Lemma index_rows_in_range (t : list (list (list A))) (bi : nat) (ids : list nat)
    (B N F : nat) :
  shape3 B N F t → bi < B → Forall (λ i, i < N) ids →
  ∃ m rows,
    t !! bi = Some m
    ∧ Train.index_rows t bi ids = Some rows
    ∧ Forall2 (λ i row, m !! i = Some row) ids rows
    ∧ shape2 (length ids) F rows.
Proof.
  intros [Ht Hms] Hbi Hids. unfold Train.index_rows.
  destruct (lookup_lt_is_Some_2 t bi) as [m Hm]; [lia|].
  destruct (Forall_lookup_1 _ _ _ _ Hms Hm) as [Hr Hc].
  destruct (mapM_lookup_in_range m ids) as (rows & Hrows & Hall).
  { by rewrite Hr. }
  exists m, rows. rewrite Hm. simpl. repeat split; try done.
  - symmetry. by eapply Forall2_length.
  - apply Forall_lookup_2. intros k row Hk.
    destruct (Forall2_lookup_r _ _ _ _ _ Hall Hk) as (i & _ & Hi).
    by apply (Forall_lookup_1 _ _ _ _ Hc Hi).
Qed.
End IndexingFacts.

Section SamplingFacts.
Context {R : Type}.

(** C2.  One pass of the loop over the batch, for an index vector [ids]
    of length K within the window: the paired gather [ba[bi, ids, ids]]
    yields the vector of diagonal entries at [ids], and the block
    [sampled_ba[bi]] becomes K copies of that vector, so every one of its
    K rows is the diagonal vector; the same holds for [bd].  The feature
    block [sampled_bf[bi]] becomes the K selected feature rows. *)
Theorem gather_step_diagonal (ba bd bf : T3 R) (bi : nat) (ids : list nat)
    (s : Train.sampled) (B N F K : nat) :
  shape3 B N N ba → shape3 B N N bd → shape3 B N F bf →
  shape3 B K K (Train.sampled_ba s) → shape3 B K K (Train.sampled_bd s) →
  shape3 B K F (Train.sampled_bf s) →
  bi < B → length ids = K → Forall (λ i, i < N) ids →
  ∃ ma md mf da dd rows s',
    ba !! bi = Some ma ∧ bd !! bi = Some md ∧ bf !! bi = Some mf
    ∧ Forall2 (λ i x, (ma !! i) ≫= (λ row : list R, row !! i) = Some x) ids da
    ∧ Forall2 (λ i x, (md !! i) ≫= (λ row : list R, row !! i) = Some x) ids dd
    ∧ Forall2 (λ i row, mf !! i = Some row) ids rows
    ∧ Train.gather_step ba bd bf bi ids s = Some s'
    ∧ Train.sampled_ba s' = <[bi := replicate K da]> (Train.sampled_ba s)
    ∧ Train.sampled_bd s' = <[bi := replicate K dd]> (Train.sampled_bd s)
    ∧ Train.sampled_bf s' = <[bi := rows]> (Train.sampled_bf s)
    ∧ (∀ r, r < K →
         (Train.sampled_ba s' !! bi) ≫= (λ blk : list (list R), blk !! r) = Some da
         ∧ (Train.sampled_bd s' !! bi) ≫= (λ blk : list (list R), blk !! r) = Some dd).
Proof.
  intros Hba Hbd Hbf Hsa Hsd Hsf Hbi Hlen Hids.
  destruct (index_pairs_diag ba bi ids B N Hba Hbi Hids) as (ma & da & Hma & Ea & Hda).
  destruct (index_pairs_diag bd bi ids B N Hbd Hbi Hids) as (md & dd & Hmd & Ed & Hdd).
  destruct (index_rows_in_range bf bi ids B N F Hbf Hbi Hids)
    as (mf & rows & Hmf & Ef & Hrows & Hshape).
  assert (length da = K) as Lda by (rewrite <- Hlen; symmetry; by eapply Forall2_length).
  assert (length dd = K) as Ldd by (rewrite <- Hlen; symmetry; by eapply Forall2_length).
  rewrite Hlen in Hshape.
  exists ma, md, mf, da, dd, rows.
  exists (Train.Sampled (<[bi := replicate K da]> (Train.sampled_ba s))
            (<[bi := replicate K dd]> (Train.sampled_bd s))
            (<[bi := rows]> (Train.sampled_bf s))).
  repeat split; try done.
  - unfold Train.gather_step. rewrite Ea, Ed, Ef. simpl.
    rewrite (set_block_vec_Some _ bi da B K) by done. simpl.
    rewrite (set_block_vec_Some _ bi dd B K) by done. simpl.
    rewrite (set_block_Some _ bi rows B K F) by done. done.
  - simpl. rewrite list_lookup_insert_eq by (destruct Hsa; lia). simpl.
    by apply lookup_replicate_2.
  - simpl. rewrite list_lookup_insert_eq by (destruct Hsd; lia). simpl.
    by apply lookup_replicate_2.
Qed.

(** C8.  With one index array [idx], a permutation of
    [0 .. sig_sample_size-1], the shuffled features of every batch element
    are its rows read at [idx]: the same array for every element, hence
    the first sig_sample_size rows of that element rearranged, and the
    result has shape batch × sig_sample_size × features. *)
Theorem shuf_fts_shared_permutation (bf : T3 R) (idx : list nat)
    (B N F K : nat) :
  shape3 B N F bf → idx ≡ₚ seq 0 K → K ≤ N →
  ∃ shuf,
    Train.shuf_fts bf idx = Some shuf
    ∧ shape3 B K F shuf
    ∧ ∀ b m, bf !! b = Some m →
        ∃ rows, shuf !! b = Some rows
                ∧ Forall2 (λ i row, m !! i = Some row) idx rows
                ∧ rows ≡ₚ take K m.
Proof.
  intros [HB Hms] Hperm HK.
  assert (Forall (λ i, i < K) idx) as Hrange.
  { apply Forall_forall. intros i Hi. rewrite Hperm in Hi.
    apply elem_of_seq in Hi. lia. }
  assert (length idx = K) as Hlen.
  { by rewrite Hperm, length_seq. }
  destruct (mapM_is_Some_2
    (λ m : list (list R), mapM (λ i, m !! i) idx) bf) as [shuf Hshuf].
  { apply Forall_forall. intros m Hm. simpl.
    rewrite Forall_forall in Hms. destruct (Hms m Hm) as [Hr _].
    destruct (mapM_lookup_in_range m idx) as (rows & -> & _); [|done].
    eapply Forall_impl; [exact Hrange|]. intros i Hi. simpl in *. lia. }
  exists shuf. split; [done|].
  assert (Hrows : ∀ b m, bf !! b = Some m →
    ∃ rows, shuf !! b = Some rows
            ∧ Forall2 (λ i row, m !! i = Some row) idx rows
            ∧ rows ≡ₚ take K m).
  { intros b m Hm.
    destruct (index_nodes_lookup bf idx shuf b m Hshuf Hm) as (rows & Hb & Hall).
    exists rows. split; [done|]. split; [done|].
    destruct (Forall2_lookup_Permutation m idx (seq 0 K) rows Hperm Hall)
      as (rows' & Hall' & Hp).
    by rewrite <- (Forall2_lookup_seq m K rows' Hall'). }
  split; [|done]. split.
  - apply mapM_Some_1, Forall2_length in Hshuf. congruence.
  - apply Forall_lookup_2. intros b rows Hb.
    destruct (lookup_lt_is_Some_2 bf b) as [m Hm].
    { apply lookup_lt_Some in Hb.
      apply mapM_Some_1, Forall2_length in Hshuf. lia. }
    destruct (Hrows b m Hm) as (rows' & Hb' & Hall & _).
    assert (rows' = rows) as -> by congruence.
    destruct (Forall_lookup_1 _ _ _ _ Hms Hm) as [_ Hc].
    split.
    + apply Forall2_length in Hall. congruence.
    + apply Forall_lookup_2. intros k row Hk.
      destruct (Forall2_lookup_r _ _ _ _ _ Hall Hk) as (i & _ & Hi).
      by apply (Forall_lookup_1 _ _ _ _ Hc Hi).
Qed.
End SamplingFacts.

(** ** Early stopping *)

Section EarlyStoppingFacts.
Context {R : Type} `{Scalar R}.

(** Running the loop over two stretches of epochs in a row. *)
Lemma epochs_loop_app (P : nat) (loss : nat → R) (l1 l2 : list nat)
    (s : Train.stop_state) :
  Train.epochs_loop P loss (l1 ++ l2) s =
  match Train.epochs_loop P loss l1 s with
  | Train.Break e s' => Train.Break e s'
  | Train.Exhausted s' => Train.epochs_loop P loss l2 s'
  end.
Proof.
  revert s. induction l1 as [|e l1 IH]; intros s; simpl; [done|].
  by case_decide.
Qed.

Lemma improve_check_improved (epoch : nat) (loss : R) (s : Train.stop_state) :
  sltb loss (Train.best s) = true →
  Train.improve_check epoch loss s = Train.StopState 0 loss epoch.
Proof. intros Hlt. unfold Train.improve_check. by rewrite Hlt. Qed.

Lemma improve_check_waits (epoch : nat) (loss : R) (s : Train.stop_state) :
  sltb loss (Train.best s) = false →
  Train.improve_check epoch loss s
  = Train.StopState (Train.cnt_wait s + 1) (Train.best s) (Train.best_t s).
Proof. intros Hlt. unfold Train.improve_check. by rewrite Hlt. Qed.

(** A stretch of epochs without improvement that is shorter than what
    is left of the patience only counts up. *)
Lemma epochs_loop_no_improvement (P : nat) (loss : nat → R) (n start c : nat)
    (bst : R) (bt : nat) :
  (∀ e, start ≤ e < start + n → sltb (loss e) bst = false) →
  c + n < P →
  Train.epochs_loop P loss (seq start n) (Train.StopState c bst bt)
  = Train.Exhausted (Train.StopState (c + n) bst bt).
Proof.
  revert start c. induction n as [|n IH]; intros start c Hno Hlt; simpl.
  { by rewrite Nat.add_0_r. }
  rewrite improve_check_waits by (simpl; apply Hno; lia). simpl.
  rewrite decide_False by lia.
  rewrite IH; [|intros e He; apply Hno; lia|lia].
  do 2 f_equal. lia.
Qed.

(** C6.  Let the loop reach epoch [b] and let the loss of epoch [b]
    improve strictly on the best seen, so that the check resets the
    counter and records [best_t = b].  If none of the next [P] epochs has
    a strictly smaller loss, the loop breaks in epoch [b + P], with the
    counter at [P] and [best_t] still [b], provided that epoch exists;
    when the epochs run out first, the loop ends without a break. *)
Theorem early_stop_at_best_plus_patience (P E : nat) (loss : nat → R)
    (b : nat) (s : Train.stop_state) :
  Train.epochs_loop P loss (seq 0 b) Train.stop_init = Train.Exhausted s →
  sltb (loss b) (Train.best s) = true →
  (∀ e, b < e ≤ b + P → sltb (loss e) (loss b) = false) →
  (b + P < E →
     Train.run_epochs P E loss = Train.Break (b + P) (Train.StopState P (loss b) b))
  ∧ (b < E ≤ b + P →
     Train.run_epochs P E loss
     = Train.Exhausted (Train.StopState (E - 1 - b) (loss b) b)).
Proof.
  intros Hreach Himp Hno. unfold Train.run_epochs. split.
  - intros HE.
    replace E with (b + S (E - b - 1)) by lia.
    rewrite seq_app, epochs_loop_app, Hreach. simpl.
    rewrite improve_check_improved by done. simpl.
    destruct (decide (0 = P)) as [<-|HP].
    { by rewrite Nat.add_0_r. }
    replace (E - b - 1) with ((P - 1) + S (E - b - P - 1)) by lia.
    rewrite seq_app, epochs_loop_app.
    rewrite epochs_loop_no_improvement; [|intros e He; apply Hno; lia|lia].
    simpl.
    rewrite improve_check_waits by (simpl; apply Hno; lia). simpl.
    rewrite decide_True by lia.
    f_equal; [lia|]. f_equal. lia.
  - intros HE.
    replace E with (b + S (E - b - 1)) at 1 by lia.
    rewrite seq_app, epochs_loop_app, Hreach. simpl.
    rewrite improve_check_improved by done. simpl.
    rewrite decide_False by lia.
    rewrite epochs_loop_no_improvement; [|intros e He; apply Hno; lia|lia].
    do 2 f_equal. lia.
Qed.

(** X24.  When no loss ever reaches below the initial bound [1e9], the
    counter runs from the first epoch on and the loop breaks in epoch
    [P - 1]. *)
Lemma early_stop_without_any_improvement (P E : nat) (loss : nat → R) :
  0 < P → P ≤ E →
  (∀ e, e < P → sltb (loss e) (sof_Z 1000000000) = false) →
  Train.run_epochs P E loss
  = Train.Break (P - 1) (Train.StopState P (sof_Z 1000000000) 0).
Proof.
  intros HP HE Hno. unfold Train.run_epochs, Train.stop_init.
  replace E with ((P - 1) + S (E - P)) by lia.
  rewrite seq_app, epochs_loop_app.
  rewrite epochs_loop_no_improvement; [|intros e He; apply Hno; lia|lia].
  simpl.
  rewrite improve_check_waits by (simpl; apply Hno; lia). simpl.
  rewrite decide_True by lia.
  do 2 f_equal. lia.
Qed.
End EarlyStoppingFacts.

(** ** topk *)

Section TopkFacts.
Context {R : Type} `{ScalarOrder R}.

#[local] Instance score_ge_total : Total (score_ge (R := R)).
Proof.
  intros p q. unfold score_ge.
  destruct (sltb (snd p) (snd q)) eqn:Hpq; [|by left].
  right. by apply sltb_asym.
Qed.

#[local] Instance score_ge_trans : Transitive (score_ge (R := R)).
Proof.
  intros p q r. unfold score_ge. apply sltb_negtrans.
Qed.


Lemma ranked_StronglySorted (v : list R) :
  StronglySorted score_ge (ranked v).
Proof. apply (StronglySorted_merge_sort score_ge). Qed.




Lemma topk_out_of_range (v : list R) (k : nat) :
  length v < k → topk v k = None.
Proof. intros Hk. unfold topk. rewrite decide_False; [done|lia]. Qed.
End TopkFacts.

(** ** Views *)

Section ViewFacts.
Context {A : Type}.

Lemma length_concat_uniform (rows : list (list A)) (w : nat) :
  Forall (λ r, length r = w) rows → length (concat rows) = length rows * w.
Proof.
  induction 1 as [|r rows Hr _ IH]; simpl; [done|].
  rewrite length_app, IH, Hr. done.
Qed.

(** Cutting the concatenation of rows of one width back into rows. *)
Lemma chunks_concat (rows : list (list A)) (w : nat) :
  Forall (λ r, length r = w) rows →
  chunks (length rows) w (concat rows) = rows.
Proof.
  induction 1 as [|r rows Hr _ IH]; simpl; [done|].
  rewrite take_app_length', drop_app_length' by done.
  by rewrite IH.
Qed.

Lemma concat_map_concat {B} (f : B → list (list A)) (l : list B) :
  concat (map (λ x, concat (f x)) l) = concat (concat (map f l)).
Proof.
  induction l as [|x l IH]; simpl; [done|].
  by rewrite concat_app, IH.
Qed.

(** Row [i·n + j] of the first operand of the concatenation is row [i],
    of the second operand row [j]: joined they list all ordered pairs. *)
Lemma zip_with_app_pairs (h hs : list (list A)) :
  zip_with app (concat (map (replicate (length h)) hs))
               (concat (replicate (length hs) h))
  = concat (map (λ hi, map (λ hj, hi ++ hj) h) hs).
Proof.
  induction hs as [|x hs IH]; simpl; [done|].
  rewrite zip_with_app by by rewrite length_replicate.
  rewrite IH. f_equal.
  by rewrite zip_with_replicate_l.
Qed.
End ViewFacts.

Section ViewOptionFacts.
Context {R : Type} `{Scalar R}.

Lemma view2_rows (rows : T2 R) (w : nat) :
  0 < length rows → Forall (λ r, length r = w) rows →
  view2 (length rows) (concat rows) = Some rows.
Proof.
  intros Hn Hw. unfold view2.
  rewrite (length_concat_uniform rows w) by done.
  rewrite decide_True.
  - rewrite Nat.mul_comm, Nat.div_mul by lia. by rewrite chunks_concat.
  - split; [lia|]. rewrite Nat.mul_comm. apply Nat.Div0.mod_mul.
Qed.

Lemma view3_groups (groups : T3 R) (m w : nat) :
  0 < length groups → 0 < w →
  Forall (λ g, length g = m ∧ Forall (λ r, length r = w) g) groups →
  view3 (length groups) w (concat (concat groups)) = Some groups.
Proof.
  intros Hn Hw Hg. unfold view3.
  assert (Forall (λ g : list (list R), length g = m) groups) as Hm.
  { eapply Forall_impl; [exact Hg|]. by intros g [? _]. }
  assert (Forall (λ r : list R, length r = w) (concat groups)) as Hrows.
  { apply Forall_concat. eapply Forall_impl; [exact Hg|]. by intros g [_ ?]. }
  rewrite (length_concat_uniform (concat groups) w) by done.
  rewrite (length_concat_uniform groups m) by done.
  assert (length groups * m * w = m * (length groups * w)) as -> by lia.
  rewrite decide_True.
  - rewrite Nat.div_mul by lia. simpl.
    rewrite <- (length_concat_uniform groups m) by done.
    rewrite chunks_concat by done. by rewrite chunks_concat.
  - split; [lia|]. apply Nat.Div0.mod_mul.
Qed.

Lemma mm_shape (p : nat) (a b : T2 R) : shape2 (length a) p (mm p a b).
Proof.
  unfold mm. split; [by rewrite length_map|].
  apply Forall_forall. intros row Hrow.
  apply list_elem_of_In, in_map_iff in Hrow as (r & <- & _).
  by rewrite length_map, length_seq.
Qed.

(** A column sum over at least one row keeps the width of the rows. *)
Lemma length_sum_rows (m : T2 R) (n c : nat) :
  0 < n → shape2 n c m → length (sum_rows m) = c.
Proof.
  intros Hn [Hlen Hc]. destruct m as [|r rs]; simpl in *; [lia|].
  apply Forall_cons in Hc as [Hr Hrs]. clear Hlen.
  revert r Hr. induction Hrs as [|r' rs Hr' _ IH]; intros r Hr; simpl; [done|].
  apply IH. unfold vadd. rewrite length_zip_with. lia.
Qed.

Lemma softmax1_shape (m : T2 R) (n c : nat) :
  shape2 n c m → shape2 n c (softmax1 m).
Proof.
  intros [Hn Hc]. unfold softmax1. split; [by rewrite length_map|].
  apply Forall_forall. intros row Hrow.
  apply list_elem_of_In, in_map_iff in Hrow as (r & <- & Hr).
  unfold softmax_row. rewrite !length_map.
  rewrite Forall_forall in Hc. apply Hc. by apply list_elem_of_In.
Qed.
End ViewOptionFacts.

(** ** GraphAttentionLayer: the selection *)

Section AttentionFacts.
Context {R : Type} `{ScalarOrder R}.

Lemma where_positive_shape (adj e : T2 R) (n c : nat) :
  shape2 n c adj → shape2 n c e →
  shape2 n c (GraphAttentionLayer.where_positive adj e).
Proof.
  intros [Ha Hac] [He Hec]. unfold GraphAttentionLayer.where_positive.
  split; [rewrite length_zip_with; lia|].
  apply Forall_lookup_2. intros i row Hrow.
  apply lookup_zip_with_Some in Hrow as (x & y & -> & Hx & Hy).
  rewrite length_zip_with.
  rewrite (Forall_lookup_1 _ _ _ _ Hac Hx), (Forall_lookup_1 _ _ _ _ Hec Hy).
  lia.
Qed.

Lemma pair_logits_shape (l : GraphAttentionLayer.t R) (h : T2 R) :
  shape2 (length h) (length h) (GraphAttentionLayer.pair_logits l h).
Proof.
  unfold GraphAttentionLayer.pair_logits. split; [by rewrite length_map|].
  apply Forall_forall. intros row Hrow.
  apply list_elem_of_In, in_map_iff in Hrow as (r & <- & _).
  by rewrite length_map.
Qed.

(** The tensor built with [repeat], [view] and [cat] holds at [(i, j)]
    the projected row [i] followed by the projected row [j], so the
    scores computed from it are the pair logits. *)
Lemma sig_scores_pairwise (l : GraphAttentionLayer.t R) (input adj : T2 R) :
  0 < length input → 0 < GraphAttentionLayer.out_features l →
  GraphAttentionLayer.sig_scores l input adj =
  Some (sum0 (softmax1 (GraphAttentionLayer.where_positive adj
    (GraphAttentionLayer.pair_logits l
       (mm (GraphAttentionLayer.out_features l) input
           (GraphAttentionLayer.W l)))))).
Proof.
  intros HN Hout. unfold GraphAttentionLayer.sig_scores.
  set (F := GraphAttentionLayer.out_features l) in *.
  destruct (mm_shape F input (GraphAttentionLayer.W l)) as [Hlen Hrows].
  set (h := mm F input (GraphAttentionLayer.W l)) in *.
  set (N := length h) in *.
  assert (0 < N) as HN' by (subst N; lia).
  assert (Forall (λ g : list (list R), length g = N)
            (map (replicate N) h)) as Hrep.
  { apply Forall_forall. intros g Hg.
    apply list_elem_of_In, in_map_iff in Hg as (r & <- & _).
    apply length_replicate. }
  assert (Forall (λ r : list R, length r = F) (concat (map (replicate N) h)))
    as Hleft.
  { apply Forall_concat, Forall_forall. intros g Hg.
    apply list_elem_of_In, in_map_iff in Hg as (r & <- & Hr).
    apply Forall_replicate. rewrite Forall_forall in Hrows.
    apply Hrows. by apply list_elem_of_In. }
  rewrite (concat_map_concat (replicate N) h).
  assert (N * N = length (concat (map (replicate N) h))) as HNN.
  { rewrite (length_concat_uniform _ N) by done. by rewrite length_map. }
  rewrite HNN at 1.
  rewrite (view2_rows _ F) by (try done; rewrite <- HNN; lia).
  simpl.
  pose proof (zip_with_app_pairs h h) as Hpairs. fold N in Hpairs.
  rewrite Hpairs.
  set (G := map (λ hi : list R, map (λ hj, hi ++ hj) h) h).
  assert (length G = N) as HG by (subst G; by rewrite length_map).
  rewrite <- HG at 1.
  change (F + (F + 0)) with (2 * F).
  rewrite (view3_groups G N (2 * F)); [| lia | lia |].
  - simpl. do 4 f_equal.
    unfold GraphAttentionLayer.matmul_squeeze, GraphAttentionLayer.pair_logits.
    subst G. rewrite !map_map. apply map_ext. intros hi.
    rewrite !map_map. done.
  - subst G. apply Forall_forall. intros g Hg.
    apply list_elem_of_In, in_map_iff in Hg as (hi & <- & Hhi).
    split; [by rewrite length_map|].
    apply Forall_forall. intros r Hr.
    apply list_elem_of_In, in_map_iff in Hr as (hj & <- & Hhj).
    rewrite length_app. rewrite Forall_forall in Hrows.
    rewrite (Hrows hi), (Hrows hj) by by apply list_elem_of_In. lia.
Qed.


End AttentionFacts.

(** ** Worked instances *)

Ltac shape_solve := repeat (split || constructor).


(** Gathering nodes 2 and 0 of a window of three nodes. *)
Lemma gather_step_diagonal_instance :
  ∃ s',
    Train.gather_step Examples.ba Examples.bd Examples.bf 0 [2; 0]
      (Train.sampled_init 1 2 2) = Some s'
    ∧ Train.sampled_ba s' !! 0 = Some [[9; 1]; [9; 1]]%Q.
Proof.
  destruct (gather_step_diagonal Examples.ba Examples.bd Examples.bf 0 [2; 0]
              (Train.sampled_init 1 2 2) 1 3 2 2)
    as (ma & md & mf & da & dd & rows & s' & _ & _ & _ & _ & _ & _ & Hs & _);
    [shape_solve..|].
  exists s'. split; [exact Hs|].
  vm_compute in Hs. injection Hs as <-. reflexivity.
Defined.

(** Shuffling the first two nodes of a window of three. *)
Lemma shuf_fts_shared_permutation_instance :
  [1; 0] ≡ₚ seq 0 2
  ∧ ∃ shuf, Train.shuf_fts Examples.bf [1; 0] = Some shuf ∧ shape3 1 2 2 shuf.
Proof.
  assert ([1; 0] ≡ₚ seq 0 2) as Hperm by apply perm_swap.
  split; [exact Hperm|].
  destruct (shuf_fts_shared_permutation Examples.bf [1; 0] 1 3 2 2)
    as (shuf & Hs & Hshape & _); [shape_solve|exact Hperm|lia|].
  by exists shuf.
Defined.


(** With the constants of [train]: the best loss is met in epoch 7 and
    the loop breaks in epoch 27. *)
Lemma early_stop_at_best_plus_patience_instance :
  Train.train_loop Examples.falling_loss
  = Train.Break 27 (Train.StopState 20 3%Q 7).
Proof.
  pose proof (early_stop_at_best_plus_patience Train.patience Train.nb_epochs
                Examples.falling_loss 7 (Train.StopState 0 4%Q 6)) as Hstop.
  assert (Train.epochs_loop Train.patience Examples.falling_loss (seq 0 7)
            Train.stop_init
          = Train.Exhausted (Train.StopState 0 4%Q 6)) as H1
    by (vm_compute; reflexivity).
  assert (sltb (Examples.falling_loss 7)
            (Train.best (Train.StopState 0 4%Q 6)) = true) as H2
    by (vm_compute; reflexivity).
  assert (∀ e, 7 < e ≤ 7 + Train.patience →
            sltb (Examples.falling_loss e) (Examples.falling_loss 7) = false)
    as H3.
  { intros e He. unfold Examples.falling_loss.
    replace (e <? 7) with false by (symmetry; apply Nat.ltb_ge; lia).
    reflexivity. }
  destruct (Hstop H1 H2 H3) as [Hbreak _].
  apply Hbreak. vm_compute. lia.
Defined.

(** * Further properties *)

(** ** Shapes through the layers *)

Section ShapeFacts.
Context {R : Type} `{Scalar R}.

(** Mapping the rows of a tensor keeps the outer axes. *)
Lemma map_rows_shape (f : list R → list R) (t : T3 R) (B N F F' : nat) :
  (∀ row, length row = F → length (f row) = F') →
  shape3 B N F t → shape3 B N F' (map (map f) t).
Proof.
  intros Hf [HB Hms]. split; [by rewrite length_map|].
  apply Forall_forall. intros m' Hm'.
  apply list_elem_of_In, in_map_iff in Hm' as (m & <- & Hm).
  rewrite Forall_forall in Hms.
  destruct (Hms m) as [HN HF]; [by apply list_elem_of_In|].
  split; [by rewrite length_map|].
  apply Forall_forall. intros r' Hr'.
  apply list_elem_of_In, in_map_iff in Hr' as (r & <- & Hr).
  apply Hf. rewrite Forall_forall in HF. apply HF. by apply list_elem_of_In.
Qed.

Lemma bmm_shape (p : nat) (a b : T3 R) (B N N' F : nat) :
  shape3 B N N' a → shape3 B N' F b → shape3 B N p (bmm p a b).
Proof.
  intros [Ha Has] [Hb Hbs]. unfold bmm. split.
  - rewrite length_zip_with. lia.
  - apply Forall_lookup_2. intros i m Hm.
    apply lookup_zip_with_Some in Hm as (x & y & -> & Hx & Hy).
    destruct (Forall_lookup_1 _ _ _ _ Has Hx) as [<- _].
    apply mm_shape.
Qed.

Lemma fc_shape (g : GCN.t R) (seq : T3 R) (B N F : nat) :
  shape3 B N F seq → shape3 B N (GCN.out_ft g) (GCN.fc g seq).
Proof.
  apply map_rows_shape. intros row _. by rewrite length_map.
Qed.

(** On a dense batch a GCN layer keeps batch and nodes and returns
    [out_ft] features per node. *)
Lemma GCN_dense_shape (g : GCN.t R) (seq a : T3 R) (B N F : nat) :
  shape3 B N F seq → shape3 B N N a →
  (∀ b, GCN.bias g = Some b → length b = GCN.out_ft g) →
  ∃ out, GCN.forward g seq (Dense3 a) false = Some out
         ∧ shape3 B N (GCN.out_ft g) out.
Proof.
  intros Hseq Ha Hbias. unfold GCN.forward. simpl.
  eexists. split; [done|].
  pose proof (bmm_shape (GCN.out_ft g) a (GCN.fc g seq) B N N (GCN.out_ft g) Ha
                (fc_shape g seq B N F Hseq)) as Hout.
  apply (map_rows_shape (map (GCN.act g)) _ B N (GCN.out_ft g)).
  { intros row Hrow. by rewrite length_map. }
  destruct (GCN.bias g) as [b|]; [|done].
  apply (map_rows_shape (λ r, vadd r b) _ B N (GCN.out_ft g)); [|done].
  intros row Hrow. unfold vadd.
  rewrite length_zip_with, (Hbias b eq_refl). lia.
Qed.

(** The mean over a non-empty node axis has one row per batch element
    and one entry per feature. *)
Lemma mean1_shape (t : T3 R) (B N F : nat) :
  0 < N → shape3 B N F t → shape2 B F (mean1 t).
Proof.
  intros HN [HB Hms]. unfold mean1. split; [by rewrite length_map|].
  apply Forall_forall. intros r Hr.
  apply list_elem_of_In, in_map_iff in Hr as (m & <- & Hm).
  rewrite length_map. apply (length_sum_rows m N F HN).
  rewrite Forall_forall in Hms. apply Hms. by apply list_elem_of_In.
Qed.

Lemma map2_shape (f : R → R) (t : T2 R) (B F : nat) :
  shape2 B F t → shape2 B F (map (map f) t).
Proof.
  intros [HB HF]. split; [by rewrite length_map|].
  apply Forall_forall. intros r' Hr'.
  apply list_elem_of_In, in_map_iff in Hr' as (r & <- & Hr).
  rewrite length_map. rewrite Forall_forall in HF.
  apply HF. by apply list_elem_of_In.
Qed.


End ShapeFacts.

(** ** Model: the dense forward pass and the embedding *)

Section ModelDenseFacts.
Context {R : Type} `{Scalar R}.

Lemma gcn_shape_bias (g : GCN.t R) (F n_h : nat) :
  gcn_shape F n_h g →
  GCN.out_ft g = n_h ∧ ∀ b, GCN.bias g = Some b → length b = GCN.out_ft g.
Proof.
  intros [[Hlen _] Hb]. unfold GCN.out_ft. split; [done|].
  intros b Hbias. rewrite Hlen. by apply Hb.
Qed.

(** A dense GCN layer with parameters of the constructor's shapes. *)
Lemma GCN_dense_params (g : GCN.t R) (seq a : T3 R) (B N F n_h : nat) :
  shape3 B N F seq → shape3 B N N a → gcn_shape F n_h g →
  ∃ out, GCN.forward g seq (Dense3 a) false = Some out ∧ shape3 B N n_h out.
Proof.
  intros Hseq Ha Hg. destruct (gcn_shape_bias g F n_h Hg) as [Hn Hb].
  destruct (GCN_dense_shape g seq a B N F Hseq Ha Hb) as (out & Hout & Hshape).
  exists out. by rewrite <- Hn.
Qed.




End ModelDenseFacts.



(** ** GCN: batches *)

Section GCNFacts.
Context {R : Type} `{Scalar R}.

(** X3.  The dense path treats the graphs of a batch one by one: for
    two well-shaped batches over the same number of nodes and features,
    and parameters of the constructor's shapes, the layer returns on each
    batch and on the two laid end to end, and the last result is the
    first two laid end to end. *)
Theorem GCN_forward_dense_app (g : GCN.t R) (seq1 seq2 a1 a2 : T3 R)
    (B1 B2 N F n_h : nat) :
  shape3 B1 N F seq1 → shape3 B1 N N a1 →
  shape3 B2 N F seq2 → shape3 B2 N N a2 →
  gcn_shape F n_h g →
  ∃ o1 o2,
    GCN.forward g seq1 (Dense3 a1) false = Some o1
    ∧ GCN.forward g seq2 (Dense3 a2) false = Some o2
    ∧ shape3 B1 N n_h o1 ∧ shape3 B2 N n_h o2
    ∧ GCN.forward g (seq1 ++ seq2) (Dense3 (a1 ++ a2)) false = Some (o1 ++ o2).
Proof.
  intros Hs1 Ha1 Hs2 Ha2 Hg.
  destruct (GCN_dense_params g seq1 a1 B1 N F n_h Hs1 Ha1 Hg) as (o1 & E1 & S1).
  destruct (GCN_dense_params g seq2 a2 B2 N F n_h Hs2 Ha2 Hg) as (o2 & E2 & S2).
  exists o1, o2. repeat (split; [done|]).
  revert E1 E2. unfold GCN.forward, GCN.fc, bmm. simpl.
  intros [= <-] [= <-].
  rewrite map_app, zip_with_app
    by (rewrite length_map; destruct Hs1, Ha1; congruence).
  destruct (GCN.bias g); by rewrite !map_app.
Qed.
End GCNFacts.

Lemma GCN_forward_dense_app_instance :
  ∃ o1 o2,
    GCN.forward MoreExamples.gcn_a [Examples.feats] (Dense3 [Examples.ring])
      false = Some o1
    ∧ GCN.forward MoreExamples.gcn_a [Examples.feats; Examples.feats]
        (Dense3 [Examples.ring; Examples.ring]) false = Some o2
    ∧ GCN.forward MoreExamples.gcn_a
        ([Examples.feats] ++ [Examples.feats; Examples.feats])
        (Dense3 ([Examples.ring] ++ [Examples.ring; Examples.ring])) false
      = Some (o1 ++ o2).
Proof.
  destruct (GCN_forward_dense_app MoreExamples.gcn_a [Examples.feats]
              [Examples.feats; Examples.feats] [Examples.ring]
              [Examples.ring; Examples.ring] 1 2 3 1 2)
    as (o1 & o2 & E1 & E2 & _ & _ & E12).
  - shape_solve.
  - shape_solve.
  - shape_solve.
  - shape_solve.
  - split; [shape_solve|]. intros b [= <-]. reflexivity.
  - exists o1, o2. split; [exact E1|]. split; [exact E2|exact E12].
Defined.

(** ** Readout: shapes *)

Section ReadoutShapeFacts.
Context {R : Type} `{Scalar R}.

(** X4.  On features of shape batch × nodes × features with at least
    one node, the readout has shape batch × features, without a mask and
    with a mask of shape batch × nodes alike. *)
Theorem Readout_forward_shape (seq : T3 R) (msk : option (T2 R)) (B N F : nat) :
  0 < N → shape3 B N F seq →
  (∀ w, msk = Some w → shape2 B N w) →
  shape2 B F (Readout.forward seq msk).
Proof.
  intros HN Hseq Hmsk. destruct msk as [w|]; simpl.
  - destruct (Hmsk w eq_refl) as [Hw Hws]. destruct Hseq as [HB Hms].
    assert (Forall2 (λ (m : list (list R)) (r : list R), length m = length r)
              seq w) as Hshape.
    { apply Forall2_same_length_lookup_2; [congruence|].
      intros i m r Hm Hr.
      destruct (Forall_lookup_1 _ _ _ _ Hms Hm) as [-> _].
      by rewrite (Forall_lookup_1 _ _ _ _ Hws Hr). }
    rewrite mul3_unsqueeze_last by done.
    unfold div_scalar. apply map2_shape, (mean1_shape _ B N F HN).
    split; [rewrite length_zip_with; lia|].
    apply Forall_lookup_2. intros i m' Hm'.
    apply lookup_zip_with_Some in Hm' as (m & r & -> & Hm & Hr).
    destruct (Forall_lookup_1 _ _ _ _ Hms Hm) as [Hlen Hrows].
    pose proof (Forall_lookup_1 _ _ _ _ Hws Hr) as Hr'. simpl in Hr'.
    split; [rewrite length_zip_with; lia|].
    apply Forall_lookup_2. intros j row' Hrow'.
    apply lookup_zip_with_Some in Hrow' as (row & x & -> & Hrow & _).
    rewrite length_map. by apply (Forall_lookup_1 _ _ _ _ Hrows Hrow).
  - by apply (mean1_shape seq B N F).
Qed.
End ReadoutShapeFacts.

Lemma Readout_forward_shape_instance :
  shape2 1 2 (Readout.forward [[[1%Q; 2%Q]; [3%Q; 4%Q]; [5%Q; 6%Q]]]
                (Some [[1%Q; 0%Q; 1%Q]])).
Proof.
  apply (Readout_forward_shape _ _ 1 3 2); [lia|shape_solve|].
  intros w [= <-]. shape_solve.
Defined.

Lemma Readout_forward_masked_value_instance :
  Readout.forward [[[1%Q; 2%Q]; [3%Q; 4%Q]; [5%Q; 6%Q]]]
    (Some [[1%Q; 0%Q; 1%Q]]) = [[1%Q; (4 # 3)%Q]].
Proof.
  rewrite (Readout_forward_masked_value
             [[[1%Q; 2%Q]; [3%Q; 4%Q]; [5%Q; 6%Q]]] [[1%Q; 0%Q; 1%Q]]).
  - vm_compute. reflexivity.
  - repeat constructor.
Defined.

(** ** Model: how the two entry points relate *)

Section ModelRelations.
Context {R : Type} `{Scalar R}.

(** X6.  When the shuffled features equal the real ones, every row of
    the logits is its first half twice: the negative scores repeat the
    positive ones. *)
Theorem Model_forward_unshuffled (m : Model.t R) (seq : T3 R)
    (adj diff : AdjArg R) (sparse : bool) (msk : option (T2 R))
    (b1 b2 : option (T2 R)) (ret : T2 R) (h_1 h_2 : T3 R) :
  Model.forward m seq seq adj diff sparse msk b1 b2 = Some (ret, h_1, h_2) →
  ∀ i row, ret !! i = Some row → ∃ pos, row = pos ++ pos.
Proof.
  unfold Model.forward. intros Hf i row Hrow.
  destruct (GCN.forward (Model.gcn1 m) seq adj sparse) as [x1|]; [|done].
  destruct (GCN.forward (Model.gcn2 m) seq diff sparse) as [x2|]; [|done].
  simpl in Hf. injection Hf as <- <- <-.
  unfold Discriminator.forward in Hrow. simpl in Hrow.
  apply lookup_zip_with_Some in Hrow as (r123 & r4 & -> & Hrow & E4).
  apply lookup_zip_with_Some in Hrow as (r12 & r3 & -> & Hrow & E3).
  apply lookup_zip_with_Some in Hrow as (r1 & r2 & -> & E1 & E2).
  assert (r3 = r1) as -> by congruence.
  assert (r4 = r2) as -> by congruence.
  exists (r1 ++ r2). by rewrite <- !app_assoc.
Qed.

(** X7.  [embed] builds on the very embeddings [forward] returns for the
    same real features: the node representation is their sum and the
    summary is the readout of the first, before the sigmoid. *)
Theorem Model_embed_of_forward (m : Model.t R) (seq1 seq2 : T3 R)
    (adj diff : AdjArg R) (sparse : bool) (msk : option (T2 R))
    (b1 b2 : option (T2 R)) (ret : T2 R) (h_1 h_2 : T3 R) :
  Model.forward m seq1 seq2 adj diff sparse msk b1 b2 = Some (ret, h_1, h_2) →
  Model.embed m seq1 adj diff sparse msk
  = Some (MkVar (Model.add3 h_1 h_2) false,
          MkVar (Readout.forward h_1 msk) false).
Proof.
  unfold Model.forward, Model.embed. intros Hf.
  destruct (GCN.forward (Model.gcn1 m) seq1 adj sparse) as [x1|]; [|done].
  destruct (GCN.forward (Model.gcn2 m) seq1 diff sparse) as [x2|]; [|done].
  destruct (GCN.forward (Model.gcn1 m) seq2 adj sparse) as [x3|]; [|done].
  destruct (GCN.forward (Model.gcn2 m) seq2 diff sparse) as [x4|]; [|done].
  simpl in Hf. by injection Hf as <- <- <-.
Qed.
End ModelRelations.

(** ** GraphAttentionLayer: failures, order, and what the adjacency adds *)

Lemma StronglySorted_lookup_lt {A} (Rel : relation A) (l : list A)
    (p q : nat) (x y : A) :
  StronglySorted Rel l → p < q → l !! p = Some x → l !! q = Some y → Rel x y.
Proof.
  intros Hs Hpq Hp Hq. rewrite <- (take_drop q l) in Hs.
  eapply StronglySorted_app_1_elem_of; [exact Hs| |].
  - apply elem_of_take. eauto.
  - apply (list_elem_of_lookup_2 _ 0). by rewrite lookup_drop, Nat.add_0_r.
Qed.

Section AttentionEdgeFacts.
Context {R : Type} `{Scalar R}.


Lemma ranked_pairs (v : list R) (i : nat) (x : R) :
  (i, x) ∈ ranked v → v !! i = Some x.
Proof.
  unfold ranked. rewrite merge_sort_Permutation. intros Hin.
  apply list_elem_of_lookup in Hin as [n Hn].
  apply lookup_zip_with_Some in Hn as (i' & x' & [= -> ->] & Hi & Hx).
  apply lookup_seq in Hi as [-> _]. done.
Qed.


(** The scores exist and number one per node. *)
Lemma sig_scores_length (l : GraphAttentionLayer.t R) (input adj : T2 R)
    (N : nat) :
  0 < N → 0 < GraphAttentionLayer.out_features l →
  length input = N → shape2 N N adj →
  ∃ sig, GraphAttentionLayer.sig_scores l input adj = Some sig
         ∧ length sig = N.
Proof.
  intros HN Hout Hin Hadj.
  rewrite sig_scores_pairwise by (try done; lia).
  eexists. split; [done|].
  unfold sum0. apply (length_sum_rows _ N N HN).
  apply softmax1_shape, where_positive_shape; [done|].
  assert (length (mm (GraphAttentionLayer.out_features l) input
                     (GraphAttentionLayer.W l)) = N) as Hh.
  { by destruct (mm_shape (GraphAttentionLayer.out_features l) input
                   (GraphAttentionLayer.W l)) as [-> _]. }
  rewrite <- Hh at 1 2. apply pair_logits_shape.
Qed.


(** X8.  The layer fails on an empty window and with zero output
    features (a [view] cannot infer its free axis), and on an [N × N]
    adjacency it fails when more than [N] nodes are asked for ([topk] is
    out of range). *)
Theorem GraphAttentionLayer_forward_failures (l : GraphAttentionLayer.t R)
    (input adj : T2 R) (N k : nat) :
  (input = [] → GraphAttentionLayer.forward l input adj k = None)
  ∧ (GraphAttentionLayer.out_features l = 0 →
     GraphAttentionLayer.forward l input adj k = None)
  ∧ (length input = N → shape2 N N adj → N < k →
     GraphAttentionLayer.forward l input adj k = None).
Proof.
  split; [|split].
  - intros ->. done.
  - intros Hout.
    unfold GraphAttentionLayer.forward, GraphAttentionLayer.sig_scores.
    rewrite Hout.
    destruct (view2 _ _) as [left|]; [|done]. simpl.
    unfold view3. rewrite decide_False; [done|]. lia.
  - intros Hin Hadj Hk.
    destruct (decide (0 < N ∧ 0 < GraphAttentionLayer.out_features l))
      as [[HN Hout]|Hno].
    + destruct (sig_scores_length l input adj N) as (sig & Hsig & Hlen);
        try done.
      unfold GraphAttentionLayer.forward. rewrite Hsig. simpl.
      unfold topk. rewrite decide_False; [done|lia].
    + unfold GraphAttentionLayer.forward, GraphAttentionLayer.sig_scores.
      destruct (decide (N = 0)) as [->|HN].
      * destruct input; [done|discriminate].
      * assert (GraphAttentionLayer.out_features l = 0) as -> by lia.
        destruct (view2 _ _) as [left|]; [|done]. simpl.
        unfold view3. rewrite decide_False; [done|]. lia.
Qed.


Lemma where_positive_sign (adj adj' e : T2 R) :
  Forall2 (Forall2 (λ x y, sltb szero x = sltb szero y)) adj adj' →
  GraphAttentionLayer.where_positive adj e
  = GraphAttentionLayer.where_positive adj' e.
Proof.
  intros Hadj. unfold GraphAttentionLayer.where_positive. revert e.
  induction Hadj as [|r r' adj adj' Hr _ IH]; intros [|v e]; simpl; try done.
  rewrite IH. f_equal. clear IH. revert v.
  induction Hr as [|x y r r' Hxy _ IH]; intros [|z v]; simpl; try done.
  by rewrite IH, Hxy.
Qed.

(** X10.  The adjacency enters only through the test [adj > 0]: two
    adjacencies with the same positive entries give the same selection,
    whatever the weights of the edges. *)
Theorem GraphAttentionLayer_forward_ignores_weights
    (l : GraphAttentionLayer.t R) (input adj adj' : T2 R) (k : nat) :
  Forall2 (Forall2 (λ x y, sltb szero x = sltb szero y)) adj adj' →
  GraphAttentionLayer.forward l input adj k
  = GraphAttentionLayer.forward l input adj' k.
Proof.
  intros Hadj.
  unfold GraphAttentionLayer.forward, GraphAttentionLayer.sig_scores.
  destruct (view2 _ _) as [left|]; [|done]. simpl.
  destruct (view3 _ _ _) as [a_input|]; [|done]. simpl.
  by rewrite (where_positive_sign adj adj').
Qed.
End AttentionEdgeFacts.

Section AttentionOrderFacts.
Context {R : Type} `{ScalarOrder R}.

(** X11.  The indices come in order of score, highest first: no later
    index has a score strictly above that of an earlier one. *)
Theorem GraphAttentionLayer_forward_sorted (l : GraphAttentionLayer.t R)
    (input adj : T2 R) (k : nat) (ids : list nat) (sig : list R) :
  GraphAttentionLayer.forward l input adj k = Some ids →
  GraphAttentionLayer.sig_scores l input adj = Some sig →
  ∀ p q i j x y, p < q → ids !! p = Some i → ids !! q = Some j →
    sig !! i = Some x → sig !! j = Some y → sltb x y = false.
Proof.
  unfold GraphAttentionLayer.forward. intros Hf Hsig. rewrite Hsig in Hf.
  simpl in Hf. unfold topk in Hf. case_decide as Hk; [|done].
  simpl in Hf. injection Hf as <-.
  intros p q i j x y Hpq Hi Hj Hx Hy.
  rewrite lookup_map in Hi, Hj.
  destruct (take k (ranked sig) !! p) as [[i' x']|] eqn:Ep; [|done].
  destruct (take k (ranked sig) !! q) as [[j' y']|] eqn:Eq; [|done].
  simpl in Hi, Hj. injection Hi as ->. injection Hj as ->.
  pose proof (ranked_pairs sig i x' (elem_of_take_full _ _ _
                (list_elem_of_lookup_2 _ _ _ Ep))) as Hx'.
  pose proof (ranked_pairs sig j y' (elem_of_take_full _ _ _
                (list_elem_of_lookup_2 _ _ _ Eq))) as Hy'.
  assert (x' = x) as -> by congruence.
  assert (y' = y) as -> by congruence.
  apply lookup_take_Some in Ep as [Ep _].
  apply lookup_take_Some in Eq as [Eq _].
  apply (StronglySorted_lookup_lt score_ge (ranked sig) p q (i, x) (j, y));
    [apply ranked_StronglySorted|done..].
Qed.
End AttentionOrderFacts.

(** ** The loop over the batch *)

Section GatherFacts.
Context {A : Type}.

Lemma expand_axis_other (n : nat) (l : list A) :
  length l ≠ 1 → expand_axis n l = l.
Proof. by destruct l as [|x [|y l]]. Qed.

(** What a successful slice assignment leaves behind. *)
Lemma set_block_inv (t t' : list (list (list A))) (bi : nat) (v : list (list A)) :
  Train.set_block t bi v = Some t' →
  ∃ slot v', t !! bi = Some slot ∧ t' = <[bi := v']> t
             ∧ shape2 (length slot) (length (default [] (head slot))) v'.
Proof.
  unfold Train.set_block, Train.broadcast_to. intros Hset.
  destruct (t !! bi) as [slot|]; [|done]. simpl in Hset.
  case_decide as Hshape; [|done]. simpl in Hset. injection Hset as <-.
  eexists _, _. split; [done|]. split; [done|]. exact Hshape.
Qed.

Lemma shape3_insert (t : list (list (list A))) (bi : nat) (v : list (list A))
    (B K F : nat) :
  shape3 B K F t → shape2 K F v → shape3 B K F (<[bi := v]> t).
Proof.
  intros [HB Hms] Hv. split; [by rewrite length_insert|].
  by apply Forall_insert.
Qed.

(** A slot of shape [K × F] only takes values of that shape. *)
Lemma set_block_shape (t t' : list (list (list A))) (bi : nat)
    (v : list (list A)) (B K F : nat) :
  shape3 B K F t → Train.set_block t bi v = Some t' → shape3 B K F t'.
Proof.
  intros Ht Hset.
  destruct (set_block_inv t t' bi v Hset) as (slot & v' & Hslot & -> & [Hr Hc]).
  apply shape3_insert; [done|].
  destruct Ht as [_ Hms].
  destruct (Forall_lookup_1 _ _ _ _ Hms Hslot) as [HK HF].
  split; [congruence|].
  destruct slot as [|row slot]; simpl in *.
  - destruct v'; [constructor|done].
  - apply Forall_cons in HF as [<- _]. done.
Qed.

Lemma set_block_other (t t' : list (list (list A))) (bi j : nat)
    (v : list (list A)) :
  Train.set_block t bi v = Some t' → j ≠ bi → t' !! j = t !! j.
Proof.
  intros Hset Hj.
  destruct (set_block_inv t t' bi v Hset) as (slot & v' & _ & -> & _).
  by apply list_lookup_insert_ne.
Qed.
End GatherFacts.

Section GatherStepFacts.
Context {R : Type}.

(** X12.  A pass of the loop over the batch that goes through writes
    block [bi] only and keeps the shapes of the three tensors. *)
Theorem gather_step_frame (ba bd bf : T3 R) (bi : nat) (ids : list nat)
    (s s' : Train.sampled) (B K F : nat) :
  Train.gather_step ba bd bf bi ids s = Some s' →
  shape3 B K K (Train.sampled_ba s) → shape3 B K K (Train.sampled_bd s) →
  shape3 B K F (Train.sampled_bf s) →
  (shape3 B K K (Train.sampled_ba s') ∧ shape3 B K K (Train.sampled_bd s')
   ∧ shape3 B K F (Train.sampled_bf s'))
  ∧ ∀ j, j ≠ bi →
      Train.sampled_ba s' !! j = Train.sampled_ba s !! j
      ∧ Train.sampled_bd s' !! j = Train.sampled_bd s !! j
      ∧ Train.sampled_bf s' !! j = Train.sampled_bf s !! j.
Proof.
  unfold Train.gather_step, Train.set_block_vec. intros Hg Hsa Hsd Hsf.
  destruct (Train.index_pairs ba bi ids) as [va|]; [|done]. simpl in Hg.
  destruct (Train.set_block (Train.sampled_ba s) bi [va]) as [sa|] eqn:Ea;
    [|done]. simpl in Hg.
  destruct (Train.index_pairs bd bi ids) as [vd|]; [|done]. simpl in Hg.
  destruct (Train.set_block (Train.sampled_bd s) bi [vd]) as [sd|] eqn:Ed;
    [|done]. simpl in Hg.
  destruct (Train.index_rows bf bi ids) as [vf|]; [|done]. simpl in Hg.
  destruct (Train.set_block (Train.sampled_bf s) bi vf) as [sf|] eqn:Ef;
    [|done]. simpl in Hg. injection Hg as <-. simpl.
  split.
  - split; [|split].
    + by apply (set_block_shape _ _ _ _ _ _ _ Hsa Ea).
    + by apply (set_block_shape _ _ _ _ _ _ _ Hsd Ed).
    + by apply (set_block_shape _ _ _ _ _ _ _ Hsf Ef).
  - intros j Hj. split; [|split].
    + by apply (set_block_other _ _ _ _ _ Ea).
    + by apply (set_block_other _ _ _ _ _ Ed).
    + by apply (set_block_other _ _ _ _ _ Ef).
Qed.

(** X13.  A pass fails when the batch element does not exist, when a
    selected index lies outside the window, and, for blocks of positive
    size [K], when the number of indices is neither [K] nor one (a vector
    of another length does not broadcast into the block). *)
Theorem gather_step_failures (ba bd bf : T3 R) (bi : nat) (ids : list nat)
    (s : Train.sampled) (B N F K : nat) :
  shape3 B N N ba → shape3 B K K (Train.sampled_ba s) →
  B ≤ bi ∨ Exists (λ i, N ≤ i) ids
  ∨ (0 < K ∧ length ids ≠ K ∧ length ids ≠ 1) →
  Train.gather_step ba bd bf bi ids s = None.
Proof.
  intros [HB Hms] [HsB Hslots] Hbad.
  unfold Train.gather_step, Train.index_pairs.
  destruct (ba !! bi) as [m|] eqn:Hm; [|done]. simpl.
  destruct Hbad as [Hbi|[Hout|(HK & HlenK & Hlen1)]].
  - apply lookup_lt_Some in Hm. lia.
  - destruct (Forall_lookup_1 _ _ _ _ Hms Hm) as [Hr _].
    assert (mapM (λ i, (m !! i) ≫= (λ row : list R, row !! i)) ids = None) as ->.
    { apply mapM_None_2. eapply Exists_impl; [exact Hout|].
      intros i Hi. simpl in *. rewrite lookup_ge_None_2; [done|lia]. }
    done.
  - destruct (mapM _ ids) as [va|] eqn:Hva; [|done]. simpl.
    assert (length va = length ids) as Hlen.
    { symmetry. eapply Forall2_length, mapM_Some_1, Hva. }
    unfold Train.set_block_vec, Train.set_block.
    destruct (Train.sampled_ba s !! bi) as [slot|] eqn:Hslot; [|done]. simpl.
    destruct (Forall_lookup_1 _ _ _ _ Hslots Hslot) as [Hr Hc].
    unfold Train.broadcast_to. simpl.
    rewrite expand_axis_other by lia.
    rewrite decide_False; [done|].
    intros [_ Hrows]. rewrite Hr in Hrows.
    destruct K as [|K']; [lia|]. simpl in Hrows.
    apply Forall_cons in Hrows as [Hrow _].
    destruct slot as [|row slot]; simpl in *; [done|].
    apply Forall_cons in Hc as [Hc _]. lia.
Qed.
End GatherStepFacts.

Lemma gather_step_frame_instance :
  ∃ s',
    Train.gather_step Examples.ba Examples.bd Examples.bf 0 [2; 0]
      (Train.sampled_init 1 2 2) = Some s'
    ∧ shape3 1 2 2 (Train.sampled_ba s')
    ∧ shape3 1 2 2 (Train.sampled_bf s').
Proof.
  destruct (Train.gather_step Examples.ba Examples.bd Examples.bf 0 [2; 0]
              (Train.sampled_init 1 2 2)) as [s'|] eqn:Hs;
    [|vm_compute in Hs; discriminate].
  exists s'. split; [done|].
  destruct (gather_step_frame Examples.ba Examples.bd Examples.bf 0 [2; 0]
              (Train.sampled_init 1 2 2) s' 1 2 2 Hs)
    as [(Ha & _ & Hf) _]; [shape_solve..|].
  by split.
Defined.

Lemma gather_step_failures_instance :
  Train.gather_step Examples.ba Examples.bd Examples.bf 0 [2; 3]
    (Train.sampled_init 1 2 2) = None.
Proof.
  apply (gather_step_failures Examples.ba Examples.bd Examples.bf 0 [2; 3]
           (Train.sampled_init 1 2 2) 1 3 2 2); [shape_solve..|].
  right. left. apply Exists_cons_tl, Exists_cons_hd. lia.
Defined.

Section SampleLoopFacts.
Context {R : Type} `{Scalar R}.





End SampleLoopFacts.

(** ** The shuffle and the forward pass of an epoch *)

Section ShuffleFacts.
Context {R : Type}.


(** X15.  When more rows are shuffled than a window holds, the shuffle
    of a non-empty batch fails: the permutation then contains an index
    past the node axis. *)
Theorem shuf_fts_out_of_range (bf : T3 R) (idx : list nat) (B N F K : nat) :
  shape3 B N F bf → 0 < B → idx ≡ₚ seq 0 K → N < K →
  Train.shuf_fts bf idx = None.
Proof.
  intros [HB Hms] HB0 Hperm HK. unfold Train.shuf_fts, Train.index_nodes.
  apply mapM_None_2.
  destruct bf as [|m bf]; simpl in *; [lia|].
  apply Exists_cons_hd. apply mapM_None_2.
  apply Forall_cons in Hms as [[Hr _] _].
  apply Exists_exists. exists N. split.
  - rewrite Hperm. apply elem_of_seq. lia.
  - apply lookup_ge_None_2. lia.
Qed.

Lemma mapM_lookup_prefix {X} (m m' : list X) (idx : list nat) (K : nat) :
  Forall (λ i, i < K) idx → take K m = take K m' →
  mapM (λ i, m !! i) idx = mapM (λ i, m' !! i) idx.
Proof.
  intros Hidx Htake.
  induction Hidx as [|i idx Hi _ IH]; simpl; [done|].
  rewrite IH.
  by rewrite <- (lookup_take_lt m K i), <- (lookup_take_lt m' K i), Htake.
Qed.

(** X16.  The shuffle reads the first [K] rows of every batch element
    and nothing else: two feature tensors that agree on those rows have
    the same shuffled features. *)
Theorem shuf_fts_reads_prefix (bf bf' : T3 R) (idx : list nat) (K : nat) :
  idx ≡ₚ seq 0 K →
  Forall2 (λ m m' : list (list R), take K m = take K m') bf bf' →
  Train.shuf_fts bf idx = Train.shuf_fts bf' idx.
Proof.
  intros Hperm Hbf. unfold Train.shuf_fts, Train.index_nodes.
  assert (Forall (λ i, i < K) idx) as Hrange.
  { apply Forall_forall. intros i Hi. rewrite Hperm in Hi.
    apply elem_of_seq in Hi. lia. }
  induction Hbf as [|m m' bf bf' Hm _ IH]; simpl; [done|].
  by rewrite IH, (mapM_lookup_prefix m m' idx K).
Qed.
End ShuffleFacts.

Section ForwardPassFacts.
Context {R : Type} `{Scalar R}.


End ForwardPassFacts.

(** ** Early stopping: every run *)

Section EarlyStoppingRuns.
Context {R : Type} `{Scalar R}.

(** After [n] epochs either no loss has been below the initial bound and
    the counter has run from the start, or the best loss is the loss of
    epoch [best_t] and the counter has run since then. *)
Lemma epochs_loop_prefix (P : nat) (loss : nat → R) (n : nat) :
  match Train.epochs_loop P loss (seq 0 n) Train.stop_init with
  | Train.Exhausted s =>
      (Train.best s = sof_Z 1000000000 ∧ Train.best_t s = 0
       ∧ Train.cnt_wait s = n)
      ∨ (Train.best_t s < n ∧ Train.best s = loss (Train.best_t s)
         ∧ Train.cnt_wait s + Train.best_t s + 1 = n)
  | Train.Break e s =>
      e < n ∧ Train.cnt_wait s = P
      ∧ ((Train.best s = sof_Z 1000000000 ∧ Train.best_t s = 0
          ∧ Train.cnt_wait s = S e)
         ∨ (Train.best_t s < S e ∧ Train.best s = loss (Train.best_t s)
            ∧ Train.cnt_wait s + Train.best_t s + 1 = S e))
  end.
Proof.
  induction n as [|n IH].
  { simpl. left. done. }
  rewrite seq_S, epochs_loop_app. simpl.
  destruct (Train.epochs_loop P loss (seq 0 n) Train.stop_init) as [e s|s].
  { destruct IH as (He & Hc & Hinv). split; [lia|]. done. }
  simpl. unfold Train.improve_check.
  destruct (sltb (loss n) (Train.best s)) eqn:Hlt; simpl.
  - case_decide as HP; simpl.
    + split; [lia|]. split; [done|]. right. split; [lia|]. split; [done|lia].
    + right. split; [lia|]. split; [done|lia].
  - case_decide as HP; simpl.
    + split; [lia|]. split; [done|].
      destruct IH as [(Hb & Ht & Hc)|(Ht & Hb & Hc)]; [left|right];
        repeat split; try done; lia.
    + destruct IH as [(Hb & Ht & Hc)|(Ht & Hb & Hc)]; [left|right];
        repeat split; try done; lia.
Qed.

(** X18.  Whenever the loop breaks, the counter equals the patience, and
    the epoch of the break is [best_t + patience] with [best] the loss of
    epoch [best_t], unless no loss was ever below the initial bound
    [1e9]: then the break comes in epoch [patience - 1] with [best_t]
    still 0. *)
Theorem early_stop_break_epoch (P E : nat) (loss : nat → R) (e : nat)
    (s : Train.stop_state) :
  Train.run_epochs P E loss = Train.Break e s →
  e < E ∧ Train.cnt_wait s = P
  ∧ ((Train.best s = loss (Train.best_t s) ∧ e = Train.best_t s + P)
     ∨ (Train.best s = sof_Z 1000000000 ∧ Train.best_t s = 0 ∧ e + 1 = P)).
Proof.
  unfold Train.run_epochs. intros Hrun.
  pose proof (epochs_loop_prefix P loss E) as Hinv. rewrite Hrun in Hinv.
  destruct Hinv as (He & Hc & [(Hb & Ht & Hc')|(Ht & Hb & Hc')]).
  - split; [done|]. split; [done|]. right. repeat split; try done. lia.
  - split; [done|]. split; [done|]. left. split; [done|lia].
Qed.
End EarlyStoppingRuns.

Section EarlyStoppingOrder.
Context {R : Type} `{ScalarOrder R}.

Lemma sltb_irrefl (x : R) : sltb x x = false.
Proof.
  destruct (sltb x x) eqn:Hx; [|done]. by rewrite (sltb_asym x x Hx) in Hx.
Qed.

(** Not below a bound, hence not below anything the bound is not below. *)
Lemma sltb_not_below (x y z : R) :
  sltb x y = false → sltb z y = true → sltb x z = false.
Proof.
  intros Hxy Hzy. destruct (sltb x z) eqn:Hxz; [|done].
  assert (sltb y z = false) as Hyz by by apply sltb_asym.
  destruct (sltb z x) eqn:Hzx.
  - by rewrite (sltb_asym z x Hzx) in Hxz.
  - by rewrite (sltb_negtrans z x y Hzx Hxy) in Hzy.
Qed.

Lemma epochs_loop_minimum (P : nat) (loss : nat → R) (n : nat) :
  match Train.epochs_loop P loss (seq 0 n) Train.stop_init with
  | Train.Exhausted s =>
      sltb (sof_Z 1000000000) (Train.best s) = false
      ∧ ∀ e', e' < n → sltb (loss e') (Train.best s) = false
  | Train.Break e s =>
      sltb (sof_Z 1000000000) (Train.best s) = false
      ∧ ∀ e', e' ≤ e → sltb (loss e') (Train.best s) = false
  end.
Proof.
  induction n as [|n IH].
  { simpl. split; [apply sltb_irrefl|]. intros; lia. }
  rewrite seq_S, epochs_loop_app. simpl.
  destruct (Train.epochs_loop P loss (seq 0 n) Train.stop_init) as [e s|s];
    [done|].
  destruct IH as [Hbound Hmin].
  assert (Hstep :
    sltb (sof_Z 1000000000)
      (Train.best (Train.improve_check n (loss n) s)) = false
    ∧ ∀ e', e' ≤ n →
        sltb (loss e') (Train.best (Train.improve_check n (loss n) s)) = false).
  { unfold Train.improve_check.
    destruct (sltb (loss n) (Train.best s)) eqn:Hlt; simpl.
    - split; [by apply (sltb_not_below _ (Train.best s))|].
      intros e' He'. destruct (decide (e' = n)) as [->|Hne].
      + apply sltb_irrefl.
      + apply (sltb_not_below _ (Train.best s)); [apply Hmin; lia|done].
    - split; [done|]. intros e' He'. destruct (decide (e' = n)) as [->|Hne].
      + done.
      + apply Hmin. lia. }
  simpl. case_decide; simpl.
  - done.
  - destruct Hstep as [Hb Hm]. split; [done|]. intros e' He'. apply Hm. lia.
Qed.

(** X19.  However the loop ends, [best] is not above the initial bound
    [1e9], and the loss of no epoch that ran is strictly below [best]. *)
Theorem early_stop_best_is_minimum (P E : nat) (loss : nat → R) :
  match Train.run_epochs P E loss with
  | Train.Exhausted s =>
      sltb (sof_Z 1000000000) (Train.best s) = false
      ∧ ∀ e', e' < E → sltb (loss e') (Train.best s) = false
  | Train.Break e s =>
      sltb (sof_Z 1000000000) (Train.best s) = false
      ∧ ∀ e', e' ≤ e → sltb (loss e') (Train.best s) = false
  end.
Proof. apply epochs_loop_minimum. Qed.
End EarlyStoppingOrder.

(** ** The checkpoint *)

Section CheckpointFacts.
Context {R : Type} `{Scalar R} {P : Type}.
Variables (loss_of : nat → P → R) (update : nat → P → P).

Lemma run_loop_app (patience : nat) (l1 l2 : list nat)
    (st : Epoch.run_state (R := R) (P := P)) :
  Epoch.run_loop loss_of update patience (l1 ++ l2) st =
  match Epoch.run_loop loss_of update patience l1 st with
  | (st', Some e) => (st', Some e)
  | (st', None) => Epoch.run_loop loss_of update patience l2 st'
  end.
Proof.
  revert st. induction l1 as [|e l1 IH]; intros st; simpl; [done|].
  by case_decide.
Qed.

(** The run with parameters follows the loop on the losses measured
    along the way, and the file holds the parameters saved last. *)
Lemma run_loop_prefix (patience : nat) (θ0 : P) (saved0 : option P) (n : nat) :
  let loss := λ e, loss_of e (Epoch.params_at update θ0 e) in
  let res := Epoch.run_loop loss_of update patience (seq 0 n)
               (Epoch.RunState θ0 Train.stop_init saved0) in
  let m := match res.2 with Some e => S e | None => n end in
  Train.epochs_loop patience loss (seq 0 n) Train.stop_init
    = match res.2 with
      | Some e => Train.Break e (Epoch.stop res.1)
      | None => Train.Exhausted (Epoch.stop res.1)
      end
  ∧ Epoch.params res.1 = Epoch.params_at update θ0 m
  ∧ ((Epoch.saved res.1 = saved0
      ∧ Train.best (Epoch.stop res.1) = sof_Z 1000000000
      ∧ ∀ e, e < m → sltb (loss e) (sof_Z 1000000000) = false)
     ∨ (Epoch.saved res.1
          = Some (Epoch.params_at update θ0 (S (Train.best_t (Epoch.stop res.1))))
        ∧ Train.best_t (Epoch.stop res.1) < m
        ∧ Train.best (Epoch.stop res.1)
          = loss (Train.best_t (Epoch.stop res.1)))).
Proof.
  induction n as [|n IH].
  { simpl. split; [done|]. split; [done|]. left. split; [done|]. split; [done|].
    intros; lia. }
  cbv zeta in *. rewrite seq_S, run_loop_app, epochs_loop_app.
  destruct (Epoch.run_loop loss_of update patience (seq 0 n)
              (Epoch.RunState θ0 Train.stop_init saved0)) as [st [e|]];
    simpl in *.
  { destruct IH as (-> & Hp & Hs). done. }
  destruct IH as (-> & Hp & Hs). simpl.
  unfold Epoch.epoch_step. rewrite Hp.
  set (loss := λ e, loss_of e (Epoch.params_at update θ0 e)) in *.
  change (loss_of n (Epoch.params_at update θ0 n)) with (loss n).
  assert (Hsaved :
    (((if sltb (loss n) (Train.best (Epoch.stop st))
       then Some (update n (Epoch.params_at update θ0 n))
       else Epoch.saved st) = saved0
      ∧ Train.best (Train.improve_check n (loss n) (Epoch.stop st))
        = sof_Z 1000000000
      ∧ ∀ e, e < S n → sltb (loss e) (sof_Z 1000000000) = false)
     ∨ ((if sltb (loss n) (Train.best (Epoch.stop st))
         then Some (update n (Epoch.params_at update θ0 n))
         else Epoch.saved st)
          = Some (Epoch.params_at update θ0
                    (S (Train.best_t
                          (Train.improve_check n (loss n) (Epoch.stop st)))))
        ∧ Train.best_t (Train.improve_check n (loss n) (Epoch.stop st)) < S n
        ∧ Train.best (Train.improve_check n (loss n) (Epoch.stop st))
          = loss (Train.best_t
                    (Train.improve_check n (loss n) (Epoch.stop st)))))).
  { unfold Train.improve_check.
    destruct (sltb (loss n) (Train.best (Epoch.stop st))) eqn:Hlt; simpl.
    - right. split; [done|]. split; [lia|done].
    - destruct Hs as [(Hsv & Hb & Hno)|(Hsv & Ht & Hb)].
      + left. split; [done|]. split; [done|].
        intros e He. destruct (decide (e = n)) as [->|Hne].
        * by rewrite <- Hb.
        * apply Hno. lia.
      + right. split; [done|]. split; [lia|done]. }
  case_decide; simpl; done.
Qed.

(** X20.  The parameters are saved after the update of the epoch, so at
    the end of the loop the file holds the parameters that came out of
    the update of epoch [best_t], one step past the parameters the best
    loss was measured on; if no loss was ever below the initial bound, the
    file is as it was before the run. *)
Theorem run_loop_checkpoint (patience E : nat) (θ0 : P) (saved0 : option P)
    (st : Epoch.run_state (R := R) (P := P)) (brk : option nat) :
  Epoch.run_loop loss_of update patience (seq 0 E)
    (Epoch.RunState θ0 Train.stop_init saved0) = (st, brk) →
  let loss := λ e, loss_of e (Epoch.params_at update θ0 e) in
  let m := match brk with Some e => S e | None => E end in
  Train.run_epochs patience E loss
    = match brk with
      | Some e => Train.Break e (Epoch.stop st)
      | None => Train.Exhausted (Epoch.stop st)
      end
  ∧ ((Epoch.restore st = saved0
      ∧ ∀ e, e < m → sltb (loss e) (sof_Z 1000000000) = false)
     ∨ (Epoch.restore st
          = Some (Epoch.params_at update θ0 (S (Train.best_t (Epoch.stop st))))
        ∧ Train.best (Epoch.stop st)
          = loss_of (Train.best_t (Epoch.stop st))
              (Epoch.params_at update θ0 (Train.best_t (Epoch.stop st))))).
Proof.
  intros Hrun.
  pose proof (run_loop_prefix patience θ0 saved0 E) as Hpre.
  simpl in Hpre. rewrite Hrun in Hpre. simpl in Hpre.
  destruct Hpre as (Hloop & _ & Hs). simpl. split; [exact Hloop|].
  unfold Epoch.restore.
  destruct Hs as [(Hsv & _ & Hno)|(Hsv & _ & Hb)]; [left|right]; done.
Qed.
End CheckpointFacts.

(** ** Windows *)

Section WindowFacts.
Context {A : Type}.

Lemma slice_lookup {X} (i s r : nat) (l : list X) :
  r < s → Epoch.slice i s l !! r = l !! (i + r).
Proof.
  intros Hr. unfold Epoch.slice. by rewrite lookup_take_lt, lookup_drop.
Qed.

Lemma slice_length {X} (i s : nat) (l : list X) :
  i + s ≤ length l → length (Epoch.slice i s l) = s.
Proof.
  intros Hle. unfold Epoch.slice. rewrite length_take, length_drop. lia.
Qed.

Lemma window2_shape (m : list (list A)) (i s N : nat) :
  shape2 N N m → i + s ≤ N → shape2 s s (Epoch.window2 m i s).
Proof.
  intros [HN Hrows] Hle. unfold Epoch.window2. split.
  - rewrite length_map. apply slice_length. lia.
  - apply Forall_forall. intros row' Hrow'.
    apply list_elem_of_In, in_map_iff in Hrow' as (row & <- & Hrow).
    apply slice_length.
    apply list_elem_of_In, elem_of_take_full, elem_of_drop_full in Hrow.
    rewrite Forall_forall in Hrows. rewrite (Hrows row Hrow). lia.
Qed.

Lemma window_rows_shape (m : list (list A)) (i s N F : nat) :
  shape2 N F m → i + s ≤ N → shape2 s F (Epoch.window_rows m i s).
Proof.
  intros [HN Hrows] Hle. unfold Epoch.window_rows. split.
  - apply slice_length. lia.
  - apply Forall_forall. intros row Hrow.
    apply elem_of_take_full, elem_of_drop_full in Hrow.
    rewrite Forall_forall in Hrows. by apply Hrows.
Qed.

(** Stacking [b] matrices of shape [r × c] and reshaping to
    [b × r × c] changes nothing. *)
Lemma np_array_reshape_same (ws : list (list (list A))) (b r c : nat) :
  shape3 b r c ws → Epoch.np_array_reshape ws b r c = Some ws.
Proof.
  intros [Hb Hws]. unfold Epoch.np_array_reshape.
  assert (Forall (λ w : list (list A), length w = r) ws) as Hr.
  { eapply Forall_impl; [exact Hws|]. by intros w [? _]. }
  assert (Forall (λ row : list A, length row = c) (concat ws)) as Hc.
  { apply Forall_concat. eapply Forall_impl; [exact Hws|]. by intros w [_ ?]. }
  rewrite decide_True.
  - f_equal. rewrite <- Hb.
    rewrite <- (length_concat_uniform ws r) by done.
    rewrite chunks_concat by done. by rewrite chunks_concat.
  - split.
    + destruct ws as [|w ws]; simpl; [constructor|].
      pose proof Hws as Hws'.
      apply Forall_cons in Hws' as [[Hw Hwc] _]. rewrite Hw.
      destruct w as [|row w]; simpl in *.
      * subst r. eapply Forall_impl; [exact Hws|].
        intros w' [Hw' _]. destruct w'; [by split|done].
      * apply Forall_cons in Hwc as [-> _]. done.
    + rewrite (length_concat_uniform _ c), (length_concat_uniform _ r) by done.
      by rewrite Hb.
Qed.

Lemma windows_stack (m : list (list A)) (idx : list nat) (B N s : nat) :
  shape2 N N m → length idx = B → Forall (λ i, i + s ≤ N) idx →
  shape3 B s s (map (λ i, Epoch.window2 m i s) idx).
Proof.
  intros Hm Hlen Hidx. split; [by rewrite length_map|].
  apply Forall_forall. intros w Hw.
  apply list_elem_of_In, in_map_iff in Hw as (i & <- & Hi).
  apply (window2_shape m i s N Hm).
  rewrite Forall_forall in Hidx. apply Hidx. by apply list_elem_of_In.
Qed.

Lemma rows_stack (m : list (list A)) (idx : list nat) (B N F s : nat) :
  shape2 N F m → length idx = B → Forall (λ i, i + s ≤ N) idx →
  shape3 B s F (map (λ i, Epoch.window_rows m i s) idx).
Proof.
  intros Hm Hlen Hidx. split; [by rewrite length_map|].
  apply Forall_forall. intros w Hw.
  apply list_elem_of_In, in_map_iff in Hw as (i & <- & Hi).
  apply (window_rows_shape m i s N F Hm).
  rewrite Forall_forall in Hidx. apply Hidx. by apply list_elem_of_In.
Qed.

(** X21.  For offsets that leave room for a whole window, the four
    tensors of an epoch are cut at the same offsets: they have the shapes
    batch × S × S (three times) and batch × S × features, and in window
    [k], cut at offset [i], row [r] of each adjacency and row [r] of the
    features all belong to node [i + r], column [c] to node [i + c]. *)
Theorem windows_in_range (ori_adj adj diff features : list (list A))
    (idx : list nat) (B N F s : nat) :
  shape2 N N ori_adj → shape2 N N adj → shape2 N N diff →
  shape2 N F features →
  length idx = B → Forall (λ i, i + s ≤ N) idx →
  ∃ b, Epoch.windows ori_adj adj diff features idx B s F = Some b
       ∧ shape3 B s s (Epoch.bo b) ∧ shape3 B s s (Epoch.ba b)
       ∧ shape3 B s s (Epoch.bd b) ∧ shape3 B s F (Epoch.bf b)
       ∧ ∀ k i r, idx !! k = Some i → r < s →
           ((Epoch.bf b !! k) ≫= (λ w : list (list A), w !! r)
              = features !! (i + r))
           ∧ ∀ c, c < s →
               (((Epoch.bo b !! k) ≫= (λ w : list (list A), w !! r))
                  ≫= (λ row : list A, row !! c)
                = (ori_adj !! (i + r)) ≫= (λ row : list A, row !! (i + c)))
               ∧ (((Epoch.ba b !! k) ≫= (λ w : list (list A), w !! r))
                    ≫= (λ row : list A, row !! c)
                  = (adj !! (i + r)) ≫= (λ row : list A, row !! (i + c)))
               ∧ (((Epoch.bd b !! k) ≫= (λ w : list (list A), w !! r))
                    ≫= (λ row : list A, row !! c)
                  = (diff !! (i + r)) ≫= (λ row : list A, row !! (i + c))).
Proof.
  intros Ho Ha Hd Hf Hlen Hidx.
  pose proof (windows_stack ori_adj idx B N s Ho Hlen Hidx) as So.
  pose proof (windows_stack adj idx B N s Ha Hlen Hidx) as Sa.
  pose proof (windows_stack diff idx B N s Hd Hlen Hidx) as Sd.
  pose proof (rows_stack features idx B N F s Hf Hlen Hidx) as Sf.
  eexists. unfold Epoch.windows.
  rewrite !np_array_reshape_same by done. simpl.
  split; [done|]. repeat (split; [done|]).
  assert (Hentry : ∀ (m : list (list A)) k i r c,
    idx !! k = Some i → r < s → c < s →
    ((map (λ i, Epoch.window2 m i s) idx !! k)
      ≫= (λ w : list (list A), w !! r)) ≫= (λ row : list A, row !! c)
    = (m !! (i + r)) ≫= (λ row : list A, row !! (i + c))).
  { intros m k i r c Hk Hr Hc. rewrite lookup_map, Hk.
    change ((λ i, Epoch.window2 m i s) <$> Some i)
      with (Some (map (Epoch.slice i s) (Epoch.slice i s m))).
    change (Some (map (Epoch.slice i s) (Epoch.slice i s m))
              ≫= (λ w : list (list A), w !! r))
      with (map (Epoch.slice i s) (Epoch.slice i s m) !! r).
    rewrite lookup_map, slice_lookup by done.
    destruct (m !! (i + r)) as [row|]; simpl; [|done].
    by apply slice_lookup. }
  intros k i r Hk Hr. cbn [Epoch.bo Epoch.ba Epoch.bd Epoch.bf]. split.
  - rewrite lookup_map, Hk.
    change (((λ i, Epoch.window_rows features i s) <$> Some i)
              ≫= (λ w : list (list A), w !! r))
      with (Epoch.slice i s features !! r).
    by apply slice_lookup.
  - intros c Hc. repeat split; by apply Hentry.
Qed.

(** X22.  A slice that runs past the last node is cut short without an
    error, and the reshape then rejects the batch: with one offset beyond
    [N - S] no tensors are produced. *)
Theorem windows_past_end (ori_adj adj diff features : list (list A))
    (idx : list nat) (B N F s : nat) :
  shape2 N N ori_adj → length idx = B → 0 < s →
  Exists (λ i, N < i + s) idx →
  Epoch.windows ori_adj adj diff features idx B s F = None.
Proof.
  intros [HN Hrows] Hlen Hs Hbad. unfold Epoch.windows.
  assert (Epoch.np_array_reshape (map (λ i, Epoch.window2 ori_adj i s) idx)
            B s s = None) as ->; [|done].
  unfold Epoch.np_array_reshape.
  set (ws := map (λ i, Epoch.window2 ori_adj i s) idx).
  set (r0 := length (default [] (head ws))).
  set (c0 := length (default [] (head (default [] (head ws))))).
  apply decide_False. intros [Hshape Hcount].
  assert (Forall (λ w : list (list A), length w = r0) ws) as Hr.
  { eapply Forall_impl; [exact Hshape|]. by intros w [? _]. }
  assert (Forall (λ row : list A, length row = c0) (concat ws)) as Hc.
  { apply Forall_concat. eapply Forall_impl; [exact Hshape|]. by intros w [_ ?]. }
  rewrite (length_concat_uniform _ c0), (length_concat_uniform _ r0) in Hcount
    by done.
  assert (length ws = B) as HB by (subst ws; by rewrite length_map).
  rewrite HB in Hcount.
  assert (0 < B) as HB0.
  { rewrite <- Hlen. apply Exists_exists in Hbad as (i & Hi & _).
    destruct idx; [by apply elem_of_nil in Hi|simpl; lia]. }
  assert (r0 < s) as Hr0.
  { apply Exists_exists in Hbad as (i & Hi & Hlt).
    assert (Epoch.window2 ori_adj i s ∈ ws) as Hw.
    { subst ws. apply list_elem_of_In, in_map_iff. exists i.
      split; [done|]. by apply list_elem_of_In. }
    rewrite Forall_forall in Hr. rewrite <- (Hr _ Hw).
    unfold Epoch.window2, Epoch.slice.
    rewrite length_map, length_take, length_drop. lia. }
  assert (c0 ≤ s) as Hc0.
  { subst c0 ws. destruct idx as [|i0 idx']; simpl; [lia|].
    unfold Epoch.window2.
    destruct (Epoch.slice i0 s ori_adj) as [|row rest]; simpl; [lia|].
    unfold Epoch.slice. rewrite length_take. lia. }
  clearbody r0 c0.
  assert (r0 * c0 < s * s) as Hlt.
  { apply Nat.le_lt_trans with (r0 * s).
    - by apply Nat.mul_le_mono_l.
    - by apply Nat.mul_lt_mono_pos_r. }
  rewrite <- !Nat.mul_assoc in Hcount.
  apply Nat.mul_cancel_l in Hcount; lia.
Qed.
End WindowFacts.

(** ** The accuracy of the probe *)

Lemma correct_le (preds test_lbls : list nat) :
  Epoch.correct preds test_lbls ≤ length test_lbls.
Proof.
  unfold Epoch.correct.
  etrans; [apply length_filter|]. rewrite length_zip_with. lia.
Qed.

Lemma correct_all (test_lbls : list nat) :
  Epoch.correct test_lbls test_lbls = length test_lbls.
Proof.
  unfold Epoch.correct.
  induction test_lbls as [|x l IH]; [done|].
  simpl. rewrite filter_cons_True by done. simpl. by rewrite IH.
Qed.

Lemma accuracy_Q (preds test_lbls : list nat) :
  (Epoch.accuracy (R := Q) preds test_lbls
   == inject_Z (Z.of_nat (Epoch.correct preds test_lbls))
      / inject_Z (Z.of_nat (length test_lbls)) * 100)%Q.
Proof.
  unfold Epoch.accuracy. simpl. by rewrite !Qred_correct.
Qed.

(** X23.  Over the rationals and for a non-empty test set the accuracy
    lies between 0 and 100, and it is 100 when every prediction equals
    its label. *)
Theorem accuracy_bounds (preds test_lbls : list nat) :
  0 < length test_lbls →
  (0 <= Epoch.accuracy (R := Q) preds test_lbls)%Q
  ∧ (Epoch.accuracy (R := Q) preds test_lbls <= 100)%Q
  ∧ (Epoch.accuracy (R := Q) test_lbls test_lbls == 100)%Q.
Proof.
  intros Hn.
  assert (0 < inject_Z (Z.of_nat (length test_lbls)))%Q as Hpos.
  { rewrite <- (Zlt_Qlt 0). lia. }
  pose proof (correct_le preds test_lbls) as Hle.
  split; [|split].
  - rewrite accuracy_Q. apply Qmult_le_0_compat; [|done].
    apply Qle_shift_div_l; [done|]. rewrite Qmult_0_l.
    rewrite <- (Zle_Qle 0). lia.
  - rewrite accuracy_Q.
    apply Qle_trans with (1 * 100)%Q; [|by rewrite Qmult_1_l].
    apply Qmult_le_compat_r; [|done].
    apply Qle_shift_div_r; [done|]. rewrite Qmult_1_l.
    rewrite <- Zle_Qle. lia.
  - rewrite accuracy_Q, correct_all. field.
    intros Hz. rewrite Hz in Hpos. by apply Qlt_irrefl in Hpos.
Qed.

(** ** Further worked instances *)

Lemma Model_forward_unshuffled_instance :
  ∃ ret h_1 h_2,
    Model.forward MoreExamples.model [Examples.feats] [Examples.feats]
      (Dense3 [Examples.ring]) (Dense3 [Examples.ring]) false None None None
      = Some (ret, h_1, h_2)
    ∧ ∀ i row, ret !! i = Some row → ∃ pos, row = pos ++ pos.
Proof.
  destruct (Model.forward MoreExamples.model [Examples.feats] [Examples.feats]
              (Dense3 [Examples.ring]) (Dense3 [Examples.ring]) false
              None None None) as [[[ret h_1] h_2]|] eqn:Hf;
    [|vm_compute in Hf; discriminate].
  exists ret, h_1, h_2. split; [reflexivity|].
  exact (Model_forward_unshuffled _ _ _ _ _ _ _ _ _ _ _ Hf).
Defined.

Lemma Model_embed_of_forward_instance :
  ∃ hv cv,
    Model.embed MoreExamples.model [Examples.feats]
      (Dense3 [Examples.ring]) (Dense3 [Examples.ring]) false None
      = Some (hv, cv)
    ∧ requires_grad hv = false ∧ requires_grad cv = false.
Proof.
  destruct (Model.forward MoreExamples.model [Examples.feats] [Examples.feats]
              (Dense3 [Examples.ring]) (Dense3 [Examples.ring]) false
              None None None) as [[[ret h_1] h_2]|] eqn:Hf;
    [|vm_compute in Hf; discriminate].
  eexists _, _. split.
  - exact (Model_embed_of_forward _ _ _ _ _ _ _ _ _ _ _ _ Hf).
  - split; reflexivity.
Defined.


Lemma GraphAttentionLayer_forward_ignores_weights_instance :
  GraphAttentionLayer.forward Examples.attn Examples.feats Examples.ring 2
  = GraphAttentionLayer.forward Examples.attn Examples.feats
      MoreExamples.ring_weighted 2.
Proof.
  apply (GraphAttentionLayer_forward_ignores_weights Examples.attn
           Examples.feats Examples.ring MoreExamples.ring_weighted 2).
  repeat constructor.
Defined.

Lemma GraphAttentionLayer_forward_sorted_instance :
  ∃ ids sig,
    GraphAttentionLayer.forward Examples.attn Examples.feats Examples.ring 2
      = Some ids
    ∧ GraphAttentionLayer.sig_scores Examples.attn Examples.feats Examples.ring
      = Some sig
    ∧ ∀ p q i j x y, p < q → ids !! p = Some i → ids !! q = Some j →
        sig !! i = Some x → sig !! j = Some y → sltb x y = false.
Proof.
  destruct (GraphAttentionLayer.forward Examples.attn Examples.feats
              Examples.ring 2) as [ids|] eqn:Hf;
    [|vm_compute in Hf; discriminate].
  destruct (GraphAttentionLayer.sig_scores Examples.attn Examples.feats
              Examples.ring) as [sig|] eqn:Hs;
    [|vm_compute in Hs; discriminate].
  exists ids, sig. split; [reflexivity|]. split; [reflexivity|].
  exact (GraphAttentionLayer_forward_sorted _ _ _ _ _ _ Hf Hs).
Defined.


Lemma shuf_fts_out_of_range_instance :
  Train.shuf_fts Examples.bf [1; 0; 2; 3] = None.
Proof.
  apply (shuf_fts_out_of_range Examples.bf [1; 0; 2; 3] 1 3 2 4);
    [shape_solve|lia|apply perm_swap|lia].
Defined.

Lemma shuf_fts_reads_prefix_instance :
  Train.shuf_fts [[[10; 11]; [20; 21]; [30; 31]]] [1; 0]
  = Train.shuf_fts [[[10; 11]; [20; 21]; [77; 78]; [88; 89]]] [1; 0].
Proof.
  apply (shuf_fts_reads_prefix (R := nat) _ _ [1; 0] 2).
  - apply perm_swap.
  - repeat constructor.
Defined.


Lemma early_stop_break_epoch_instance :
  ∃ e s,
    Train.train_loop Examples.falling_loss = Train.Break e s
    ∧ e < Train.nb_epochs ∧ Train.cnt_wait s = Train.patience.
Proof.
  destruct (Train.train_loop Examples.falling_loss) as [e s|s] eqn:Hrun;
    [|vm_compute in Hrun; discriminate].
  exists e, s. split; [reflexivity|].
  destruct (early_stop_break_epoch Train.patience Train.nb_epochs
              Examples.falling_loss e s Hrun) as (He & Hc & _).
  split; [exact He|exact Hc].
Defined.

Lemma early_stop_best_is_minimum_instance :
  match Train.run_epochs 3 10 Examples.falling_loss with
  | Train.Exhausted s =>
      sltb 1000000000%Q (Train.best s) = false
      ∧ ∀ e', e' < 10 → sltb (Examples.falling_loss e') (Train.best s) = false
  | Train.Break e s =>
      sltb 1000000000%Q (Train.best s) = false
      ∧ ∀ e', e' ≤ e → sltb (Examples.falling_loss e') (Train.best s) = false
  end.
Proof.
  exact (early_stop_best_is_minimum (R := Q) 3 10 Examples.falling_loss).
Defined.

Lemma early_stop_without_any_improvement_instance :
  Train.train_loop MoreExamples.high_loss
  = Train.Break 19 (Train.StopState 20 1000000000%Q 0).
Proof.
  assert (0 < Train.patience) as H1 by (unfold Train.patience; lia).
  assert (Train.patience ≤ Train.nb_epochs) as H2 by (vm_compute; lia).
  assert (∀ e, e < Train.patience →
            sltb (MoreExamples.high_loss e) (sof_Z 1000000000) = false) as H3
    by (intros e He; reflexivity).
  exact (early_stop_without_any_improvement (R := Q) Train.patience
           Train.nb_epochs MoreExamples.high_loss H1 H2 H3).
Defined.

Lemma run_loop_checkpoint_instance :
  ∃ st brk,
    Epoch.run_loop MoreExamples.count_loss MoreExamples.count_update 3
      (seq 0 30) (Epoch.RunState 0 Train.stop_init None) = (st, brk)
    ∧ Train.run_epochs 3 30
        (λ e, MoreExamples.count_loss e
                (Epoch.params_at MoreExamples.count_update 0 e))
      = match brk with
        | Some e => Train.Break e (Epoch.stop st)
        | None => Train.Exhausted (Epoch.stop st)
        end.
Proof.
  destruct (Epoch.run_loop MoreExamples.count_loss MoreExamples.count_update 3
              (seq 0 30) (Epoch.RunState 0 Train.stop_init None))
    as [st brk] eqn:Hrun.
  exists st, brk. split; [reflexivity|].
  exact (proj1 (run_loop_checkpoint MoreExamples.count_loss
                  MoreExamples.count_update 3 30 0 None st brk Hrun)).
Defined.

Lemma windows_in_range_instance :
  ∃ b,
    Epoch.windows MoreExamples.graph_adj MoreExamples.graph_adj
      MoreExamples.graph_adj MoreExamples.graph_fts [0; 1] 2 3 2 = Some b
    ∧ shape3 2 3 3 (Epoch.ba b) ∧ shape3 2 3 2 (Epoch.bf b).
Proof.
  destruct (windows_in_range MoreExamples.graph_adj MoreExamples.graph_adj
              MoreExamples.graph_adj MoreExamples.graph_fts [0; 1] 2 4 2 3)
    as (b & Hb & _ & Ha & _ & Hf & _).
  - shape_solve.
  - shape_solve.
  - shape_solve.
  - shape_solve.
  - reflexivity.
  - repeat constructor.
  - exists b. split; [exact Hb|]. split; [exact Ha|exact Hf].
Defined.

Lemma windows_past_end_instance :
  Epoch.windows MoreExamples.graph_adj MoreExamples.graph_adj
    MoreExamples.graph_adj MoreExamples.graph_fts [0; 2] 2 3 2 = None.
Proof.
  apply (windows_past_end MoreExamples.graph_adj MoreExamples.graph_adj
           MoreExamples.graph_adj MoreExamples.graph_fts [0; 2] 2 4 2 3).
  - shape_solve.
  - reflexivity.
  - lia.
  - apply Exists_cons_tl, Exists_cons_hd. lia.
Defined.

Lemma accuracy_bounds_instance :
  (0 <= Epoch.accuracy (R := Q) [1; 0; 2]%nat [1; 1; 2]%nat)%Q
  ∧ (Epoch.accuracy (R := Q) [1; 0; 2]%nat [1; 1; 2]%nat <= 100)%Q.
Proof.
  destruct (accuracy_bounds [1; 0; 2]%nat [1; 1; 2]%nat) as (H0 & H100 & _).
  - simpl. lia.
  - split; [exact H0|exact H100].
Defined.
